(** * Configuration resolution of the ClickUp MCP server

    A shallow embedding of [src/config.ts]: the [--env KEY=VALUE] tokenizer,
    the merge of command-line values, environment variables and defaults
    into the [Config] record, and the required-variable check that either
    exports the record or throws.

    A JavaScript string is the Rocq [string] of its UTF-8 encoding, which
    is what a string literal of this file denotes; equality, emptiness and
    cutting at an ASCII separator are the same on both.  [trim] removes the
    white space code points of ECMAScript and [toUpperCase] applies the
    full case mapping of Unicode, code point by code point; strings that
    are not UTF-8 do not arise from the process arguments or environment.
    A value of type [string | undefined] is an [option string], [None] being
    [undefined].  [process.env] (after [dotenv.config()]) is a finite map
    from variable names to strings. *)

From Stdlib Require Import NArith Ascii String Bool Lia.
From stdpp Require Import base option list strings gmap.
Local Open Scope string_scope.

(** ** JavaScript primitives used by the module *)

Module JS.

(** Truthiness of a [string | undefined]: only [undefined] and the empty
    string are falsy. *)
Definition truthy (v : option string) : bool :=
  match v with
  | Some s => negb (s =? "")
  | None => false
  end.

(** [a || b] on [string | undefined]. *)
Definition or (a b : option string) : option string :=
  if truthy a then a else b.

(** [a || 'literal']: the right operand is a string, so is the result. *)
Definition or_str (a : option string) (d : string) : string :=
  match a with
  | Some s => if s =? "" then d else s
  | None => d
  end.

(** [v === 'literal']. *)
Definition strict_eq (v : option string) (lit : string) : bool :=
  match v with
  | Some s => s =? lit
  | None => false
  end.

(** [s.split(sep)] for a one-character separator: always at least one
    piece, one more piece than there are separators. *)
Fixpoint split (sep : ascii) (s : string) : list string :=
  match s with
  | EmptyString => [""]
  | String c s' =>
      if Ascii.eqb c sep then "" :: split sep s'
      else match split sep s' with
           | [] => [String c ""]
           | piece :: pieces => String c piece :: pieces
           end
  end.

(** [l.join(sep)]. *)
Fixpoint join (sep : string) (l : list string) : string :=
  match l with
  | [] => ""
  | x :: rest =>
      match rest with
      | [] => x
      | _ :: _ => x +:+ sep +:+ join sep rest
      end
  end.

(** The string whose characters have the given codes. *)
Definition bytes (codes : list nat) : string :=
  fold_right (fun n s => String (ascii_of_nat n) s) "" codes.

(** [w] is the beginning of [s]. *)
Fixpoint starts_with (w s : string) : bool :=
  match w, s with
  | EmptyString, _ => true
  | String a w', String b s' => Ascii.eqb a b && starts_with w' s'
  | String _ _, EmptyString => false
  end.

(** [s] without its first [n] characters. *)
Fixpoint string_drop (n : nat) (s : string) : string :=
  match n, s with
  | S n', String _ s' => string_drop n' s'
  | _, _ => s
  end.

(** The white space [trim] removes: the code points of the [WhiteSpace]
    and [LineTerminator] productions of ECMAScript (TAB, LF, VT, FF, CR,
    SPACE, NO-BREAK SPACE, the other space separators of Unicode, LINE and
    PARAGRAPH SEPARATOR, and the byte order mark), each in UTF-8. *)
Definition white_space : list string :=
  [bytes [9];  (* U+0009 *)
   bytes [10];  (* U+000A *)
   bytes [11];  (* U+000B *)
   bytes [12];  (* U+000C *)
   bytes [13];  (* U+000D *)
   bytes [32];  (* U+0020 *)
   bytes [194; 160];  (* U+00A0 *)
   bytes [225; 154; 128];  (* U+1680 *)
   bytes [226; 128; 128];  (* U+2000 *)
   bytes [226; 128; 129];  (* U+2001 *)
   bytes [226; 128; 130];  (* U+2002 *)
   bytes [226; 128; 131];  (* U+2003 *)
   bytes [226; 128; 132];  (* U+2004 *)
   bytes [226; 128; 133];  (* U+2005 *)
   bytes [226; 128; 134];  (* U+2006 *)
   bytes [226; 128; 135];  (* U+2007 *)
   bytes [226; 128; 136];  (* U+2008 *)
   bytes [226; 128; 137];  (* U+2009 *)
   bytes [226; 128; 138];  (* U+200A *)
   bytes [226; 128; 168];  (* U+2028 *)
   bytes [226; 128; 169];  (* U+2029 *)
   bytes [226; 128; 175];  (* U+202F *)
   bytes [226; 129; 159];  (* U+205F *)
   bytes [227; 128; 128];  (* U+3000 *)
   bytes [239; 187; 191]  (* U+FEFF *)].

(** The white space code point [s] begins with, if it begins with one. *)
Definition space_prefix (s : string) : option string :=
  List.find (fun w => starts_with w s) white_space.

(** [s.trimStart()]: the white space code points at the front are stepped
    over, [skip] counting the characters of the current one still to pass. *)
Fixpoint trimStart_from (skip : nat) (s : string) : string :=
  match s with
  | EmptyString => ""
  | String _ s' =>
      match skip with
      | S k => trimStart_from k s'
      | O =>
          match space_prefix s with
          | Some w => trimStart_from (String.length w - 1) s'
          | None => s
          end
      end
  end.

Definition trimStart (s : string) : string := trimStart_from 0 s.

(** After [skip] more characters, the string is a sequence of white space
    code points and nothing else. *)
Fixpoint spaces_from (skip : nat) (s : string) : bool :=
  match s with
  | EmptyString =>
      match skip with
      | O => true
      | S _ => false
      end
  | String _ s' =>
      match skip with
      | S k => spaces_from k s'
      | O =>
          match space_prefix s with
          | Some w => spaces_from (String.length w - 1) s'
          | None => false
          end
      end
  end.

(** [s.trimEnd()]: the string up to the first position from which only
    white space follows. *)
Fixpoint trimEnd (s : string) : string :=
  match s with
  | EmptyString => ""
  | String c s' => if spaces_from 0 s then "" else String c (trimEnd s')
  end.

(** [s.trim()]. *)
Definition trim (s : string) : string := trimEnd (trimStart s).

(** A character of the ASCII range, which UTF-8 writes as itself. *)
Definition is_ascii (c : ascii) : bool := (N_of_ascii c <? 128)%N.

(** The upper-case form of an ASCII character. *)
Definition toUpperCase_char (c : ascii) : ascii :=
  let n := N_of_ascii c in
  if ((97 <=? n) && (n <=? 122))%N then ascii_of_N (n - 32) else c.

(** The code points above U+007F that [toUpperCase] changes, each with
    what it puts in its place, both in UTF-8: the full case mapping of the
    Unicode Character Database, version 14.0 (the upper-case mappings of
    [UnicodeData.txt] with the unconditional ones of [SpecialCasing.txt],
    which ECMAScript prescribes for [toUpperCase]). *)
Definition upper_table : list (string * string) :=
  [("µ", "Μ"); ("ß", "SS"); ("à", "À"); ("á", "Á"); ("â", "Â"); ("ã", "Ã");
   ("ä", "Ä"); ("å", "Å"); ("æ", "Æ"); ("ç", "Ç"); ("è", "È"); ("é", "É");
   ("ê", "Ê"); ("ë", "Ë"); ("ì", "Ì"); ("í", "Í"); ("î", "Î"); ("ï", "Ï");
   ("ð", "Ð"); ("ñ", "Ñ"); ("ò", "Ò"); ("ó", "Ó"); ("ô", "Ô"); ("õ", "Õ");
   ("ö", "Ö"); ("ø", "Ø"); ("ù", "Ù"); ("ú", "Ú"); ("û", "Û"); ("ü", "Ü");
   ("ý", "Ý"); ("þ", "Þ"); ("ÿ", "Ÿ"); ("ā", "Ā"); ("ă", "Ă"); ("ą", "Ą");
   ("ć", "Ć"); ("ĉ", "Ĉ"); ("ċ", "Ċ"); ("č", "Č"); ("ď", "Ď"); ("đ", "Đ");
   ("ē", "Ē"); ("ĕ", "Ĕ"); ("ė", "Ė"); ("ę", "Ę"); ("ě", "Ě"); ("ĝ", "Ĝ");
   ("ğ", "Ğ"); ("ġ", "Ġ"); ("ģ", "Ģ"); ("ĥ", "Ĥ"); ("ħ", "Ħ"); ("ĩ", "Ĩ");
   ("ī", "Ī"); ("ĭ", "Ĭ"); ("į", "Į"); ("ı", "I"); ("ĳ", "Ĳ"); ("ĵ", "Ĵ");
   ("ķ", "Ķ"); ("ĺ", "Ĺ"); ("ļ", "Ļ"); ("ľ", "Ľ"); ("ŀ", "Ŀ"); ("ł", "Ł");
   ("ń", "Ń"); ("ņ", "Ņ"); ("ň", "Ň"); ("ŉ", "ʼN"); ("ŋ", "Ŋ"); ("ō", "Ō");
   ("ŏ", "Ŏ"); ("ő", "Ő"); ("œ", "Œ"); ("ŕ", "Ŕ"); ("ŗ", "Ŗ"); ("ř", "Ř");
   ("ś", "Ś"); ("ŝ", "Ŝ"); ("ş", "Ş"); ("š", "Š"); ("ţ", "Ţ"); ("ť", "Ť");
   ("ŧ", "Ŧ"); ("ũ", "Ũ"); ("ū", "Ū"); ("ŭ", "Ŭ"); ("ů", "Ů"); ("ű", "Ű");
   ("ų", "Ų"); ("ŵ", "Ŵ"); ("ŷ", "Ŷ"); ("ź", "Ź"); ("ż", "Ż"); ("ž", "Ž");
   ("ſ", "S"); ("ƀ", "Ƀ"); ("ƃ", "Ƃ"); ("ƅ", "Ƅ"); ("ƈ", "Ƈ"); ("ƌ", "Ƌ");
   ("ƒ", "Ƒ"); ("ƕ", "Ƕ"); ("ƙ", "Ƙ"); ("ƚ", "Ƚ"); ("ƞ", "Ƞ"); ("ơ", "Ơ");
   ("ƣ", "Ƣ"); ("ƥ", "Ƥ"); ("ƨ", "Ƨ"); ("ƭ", "Ƭ"); ("ư", "Ư"); ("ƴ", "Ƴ");
   ("ƶ", "Ƶ"); ("ƹ", "Ƹ"); ("ƽ", "Ƽ"); ("ƿ", "Ƿ"); ("ǅ", "Ǆ"); ("ǆ", "Ǆ");
   ("ǈ", "Ǉ"); ("ǉ", "Ǉ"); ("ǋ", "Ǌ"); ("ǌ", "Ǌ"); ("ǎ", "Ǎ"); ("ǐ", "Ǐ");
   ("ǒ", "Ǒ"); ("ǔ", "Ǔ"); ("ǖ", "Ǖ"); ("ǘ", "Ǘ"); ("ǚ", "Ǚ"); ("ǜ", "Ǜ");
   ("ǝ", "Ǝ"); ("ǟ", "Ǟ"); ("ǡ", "Ǡ"); ("ǣ", "Ǣ"); ("ǥ", "Ǥ"); ("ǧ", "Ǧ");
   ("ǩ", "Ǩ"); ("ǫ", "Ǫ"); ("ǭ", "Ǭ"); ("ǯ", "Ǯ"); ("ǰ", "J̌"); ("ǲ", "Ǳ");
   ("ǳ", "Ǳ"); ("ǵ", "Ǵ"); ("ǹ", "Ǹ"); ("ǻ", "Ǻ"); ("ǽ", "Ǽ"); ("ǿ", "Ǿ");
   ("ȁ", "Ȁ"); ("ȃ", "Ȃ"); ("ȅ", "Ȅ"); ("ȇ", "Ȇ"); ("ȉ", "Ȉ"); ("ȋ", "Ȋ");
   ("ȍ", "Ȍ"); ("ȏ", "Ȏ"); ("ȑ", "Ȑ"); ("ȓ", "Ȓ"); ("ȕ", "Ȕ"); ("ȗ", "Ȗ");
   ("ș", "Ș"); ("ț", "Ț"); ("ȝ", "Ȝ"); ("ȟ", "Ȟ"); ("ȣ", "Ȣ"); ("ȥ", "Ȥ");
   ("ȧ", "Ȧ"); ("ȩ", "Ȩ"); ("ȫ", "Ȫ"); ("ȭ", "Ȭ"); ("ȯ", "Ȯ"); ("ȱ", "Ȱ");
   ("ȳ", "Ȳ"); ("ȼ", "Ȼ"); ("ȿ", "Ȿ"); ("ɀ", "Ɀ"); ("ɂ", "Ɂ"); ("ɇ", "Ɇ");
   ("ɉ", "Ɉ"); ("ɋ", "Ɋ"); ("ɍ", "Ɍ"); ("ɏ", "Ɏ"); ("ɐ", "Ɐ"); ("ɑ", "Ɑ");
   ("ɒ", "Ɒ"); ("ɓ", "Ɓ"); ("ɔ", "Ɔ"); ("ɖ", "Ɖ"); ("ɗ", "Ɗ"); ("ə", "Ə");
   ("ɛ", "Ɛ"); ("ɜ", "Ɜ"); ("ɠ", "Ɠ"); ("ɡ", "Ɡ"); ("ɣ", "Ɣ"); ("ɥ", "Ɥ");
   ("ɦ", "Ɦ"); ("ɨ", "Ɨ"); ("ɩ", "Ɩ"); ("ɪ", "Ɪ"); ("ɫ", "Ɫ"); ("ɬ", "Ɬ");
   ("ɯ", "Ɯ"); ("ɱ", "Ɱ"); ("ɲ", "Ɲ"); ("ɵ", "Ɵ"); ("ɽ", "Ɽ"); ("ʀ", "Ʀ");
   ("ʂ", "Ʂ"); ("ʃ", "Ʃ"); ("ʇ", "Ʇ"); ("ʈ", "Ʈ"); ("ʉ", "Ʉ"); ("ʊ", "Ʊ");
   ("ʋ", "Ʋ"); ("ʌ", "Ʌ"); ("ʒ", "Ʒ"); ("ʝ", "Ʝ"); ("ʞ", "Ʞ"); ("ͅ", "Ι");
   ("ͱ", "Ͱ"); ("ͳ", "Ͳ"); ("ͷ", "Ͷ"); ("ͻ", "Ͻ"); ("ͼ", "Ͼ"); ("ͽ", "Ͽ");
   ("ΐ", "Ϊ́"); ("ά", "Ά"); ("έ", "Έ"); ("ή", "Ή"); ("ί", "Ί");
   ("ΰ", "Ϋ́"); ("α", "Α"); ("β", "Β"); ("γ", "Γ"); ("δ", "Δ");
   ("ε", "Ε"); ("ζ", "Ζ"); ("η", "Η"); ("θ", "Θ"); ("ι", "Ι"); ("κ", "Κ");
   ("λ", "Λ"); ("μ", "Μ"); ("ν", "Ν"); ("ξ", "Ξ"); ("ο", "Ο"); ("π", "Π");
   ("ρ", "Ρ"); ("ς", "Σ"); ("σ", "Σ"); ("τ", "Τ"); ("υ", "Υ"); ("φ", "Φ");
   ("χ", "Χ"); ("ψ", "Ψ"); ("ω", "Ω"); ("ϊ", "Ϊ"); ("ϋ", "Ϋ"); ("ό", "Ό");
   ("ύ", "Ύ"); ("ώ", "Ώ"); ("ϐ", "Β"); ("ϑ", "Θ"); ("ϕ", "Φ"); ("ϖ", "Π");
   ("ϗ", "Ϗ"); ("ϙ", "Ϙ"); ("ϛ", "Ϛ"); ("ϝ", "Ϝ"); ("ϟ", "Ϟ"); ("ϡ", "Ϡ");
   ("ϣ", "Ϣ"); ("ϥ", "Ϥ"); ("ϧ", "Ϧ"); ("ϩ", "Ϩ"); ("ϫ", "Ϫ"); ("ϭ", "Ϭ");
   ("ϯ", "Ϯ"); ("ϰ", "Κ"); ("ϱ", "Ρ"); ("ϲ", "Ϲ"); ("ϳ", "Ϳ"); ("ϵ", "Ε");
   ("ϸ", "Ϸ"); ("ϻ", "Ϻ"); ("а", "А"); ("б", "Б"); ("в", "В"); ("г", "Г");
   ("д", "Д"); ("е", "Е"); ("ж", "Ж"); ("з", "З"); ("и", "И"); ("й", "Й");
   ("к", "К"); ("л", "Л"); ("м", "М"); ("н", "Н"); ("о", "О"); ("п", "П");
   ("р", "Р"); ("с", "С"); ("т", "Т"); ("у", "У"); ("ф", "Ф"); ("х", "Х");
   ("ц", "Ц"); ("ч", "Ч"); ("ш", "Ш"); ("щ", "Щ"); ("ъ", "Ъ"); ("ы", "Ы");
   ("ь", "Ь"); ("э", "Э"); ("ю", "Ю"); ("я", "Я"); ("ѐ", "Ѐ"); ("ё", "Ё");
   ("ђ", "Ђ"); ("ѓ", "Ѓ"); ("є", "Є"); ("ѕ", "Ѕ"); ("і", "І"); ("ї", "Ї");
   ("ј", "Ј"); ("љ", "Љ"); ("њ", "Њ"); ("ћ", "Ћ"); ("ќ", "Ќ"); ("ѝ", "Ѝ");
   ("ў", "Ў"); ("џ", "Џ"); ("ѡ", "Ѡ"); ("ѣ", "Ѣ"); ("ѥ", "Ѥ"); ("ѧ", "Ѧ");
   ("ѩ", "Ѩ"); ("ѫ", "Ѫ"); ("ѭ", "Ѭ"); ("ѯ", "Ѯ"); ("ѱ", "Ѱ"); ("ѳ", "Ѳ");
   ("ѵ", "Ѵ"); ("ѷ", "Ѷ"); ("ѹ", "Ѹ"); ("ѻ", "Ѻ"); ("ѽ", "Ѽ"); ("ѿ", "Ѿ");
   ("ҁ", "Ҁ"); ("ҋ", "Ҋ"); ("ҍ", "Ҍ"); ("ҏ", "Ҏ"); ("ґ", "Ґ"); ("ғ", "Ғ");
   ("ҕ", "Ҕ"); ("җ", "Җ"); ("ҙ", "Ҙ"); ("қ", "Қ"); ("ҝ", "Ҝ"); ("ҟ", "Ҟ");
   ("ҡ", "Ҡ"); ("ң", "Ң"); ("ҥ", "Ҥ"); ("ҧ", "Ҧ"); ("ҩ", "Ҩ"); ("ҫ", "Ҫ");
   ("ҭ", "Ҭ"); ("ү", "Ү"); ("ұ", "Ұ"); ("ҳ", "Ҳ"); ("ҵ", "Ҵ"); ("ҷ", "Ҷ");
   ("ҹ", "Ҹ"); ("һ", "Һ"); ("ҽ", "Ҽ"); ("ҿ", "Ҿ"); ("ӂ", "Ӂ"); ("ӄ", "Ӄ");
   ("ӆ", "Ӆ"); ("ӈ", "Ӈ"); ("ӊ", "Ӊ"); ("ӌ", "Ӌ"); ("ӎ", "Ӎ"); ("ӏ", "Ӏ");
   ("ӑ", "Ӑ"); ("ӓ", "Ӓ"); ("ӕ", "Ӕ"); ("ӗ", "Ӗ"); ("ә", "Ә"); ("ӛ", "Ӛ");
   ("ӝ", "Ӝ"); ("ӟ", "Ӟ"); ("ӡ", "Ӡ"); ("ӣ", "Ӣ"); ("ӥ", "Ӥ"); ("ӧ", "Ӧ");
   ("ө", "Ө"); ("ӫ", "Ӫ"); ("ӭ", "Ӭ"); ("ӯ", "Ӯ"); ("ӱ", "Ӱ"); ("ӳ", "Ӳ");
   ("ӵ", "Ӵ"); ("ӷ", "Ӷ"); ("ӹ", "Ӹ"); ("ӻ", "Ӻ"); ("ӽ", "Ӽ"); ("ӿ", "Ӿ");
   ("ԁ", "Ԁ"); ("ԃ", "Ԃ"); ("ԅ", "Ԅ"); ("ԇ", "Ԇ"); ("ԉ", "Ԉ"); ("ԋ", "Ԋ");
   ("ԍ", "Ԍ"); ("ԏ", "Ԏ"); ("ԑ", "Ԑ"); ("ԓ", "Ԓ"); ("ԕ", "Ԕ"); ("ԗ", "Ԗ");
   ("ԙ", "Ԙ"); ("ԛ", "Ԛ"); ("ԝ", "Ԝ"); ("ԟ", "Ԟ"); ("ԡ", "Ԡ"); ("ԣ", "Ԣ");
   ("ԥ", "Ԥ"); ("ԧ", "Ԧ"); ("ԩ", "Ԩ"); ("ԫ", "Ԫ"); ("ԭ", "Ԭ"); ("ԯ", "Ԯ");
   ("ա", "Ա"); ("բ", "Բ"); ("գ", "Գ"); ("դ", "Դ"); ("ե", "Ե"); ("զ", "Զ");
   ("է", "Է"); ("ը", "Ը"); ("թ", "Թ"); ("ժ", "Ժ"); ("ի", "Ի"); ("լ", "Լ");
   ("խ", "Խ"); ("ծ", "Ծ"); ("կ", "Կ"); ("հ", "Հ"); ("ձ", "Ձ"); ("ղ", "Ղ");
   ("ճ", "Ճ"); ("մ", "Մ"); ("յ", "Յ"); ("ն", "Ն"); ("շ", "Շ"); ("ո", "Ո");
   ("չ", "Չ"); ("պ", "Պ"); ("ջ", "Ջ"); ("ռ", "Ռ"); ("ս", "Ս"); ("վ", "Վ");
   ("տ", "Տ"); ("ր", "Ր"); ("ց", "Ց"); ("ւ", "Ւ"); ("փ", "Փ"); ("ք", "Ք");
   ("օ", "Օ"); ("ֆ", "Ֆ"); ("և", "ԵՒ"); ("ა", "Ა"); ("ბ", "Ბ"); ("გ", "Გ");
   ("დ", "Დ"); ("ე", "Ე"); ("ვ", "Ვ"); ("ზ", "Ზ"); ("თ", "Თ"); ("ი", "Ი");
   ("კ", "Კ"); ("ლ", "Ლ"); ("მ", "Მ"); ("ნ", "Ნ"); ("ო", "Ო"); ("პ", "Პ");
   ("ჟ", "Ჟ"); ("რ", "Რ"); ("ს", "Ს"); ("ტ", "Ტ"); ("უ", "Უ"); ("ფ", "Ფ");
   ("ქ", "Ქ"); ("ღ", "Ღ"); ("ყ", "Ყ"); ("შ", "Შ"); ("ჩ", "Ჩ"); ("ც", "Ც");
   ("ძ", "Ძ"); ("წ", "Წ"); ("ჭ", "Ჭ"); ("ხ", "Ხ"); ("ჯ", "Ჯ"); ("ჰ", "Ჰ");
   ("ჱ", "Ჱ"); ("ჲ", "Ჲ"); ("ჳ", "Ჳ"); ("ჴ", "Ჴ"); ("ჵ", "Ჵ"); ("ჶ", "Ჶ");
   ("ჷ", "Ჷ"); ("ჸ", "Ჸ"); ("ჹ", "Ჹ"); ("ჺ", "Ჺ"); ("ჽ", "Ჽ"); ("ჾ", "Ჾ");
   ("ჿ", "Ჿ"); ("ᏸ", "Ᏸ"); ("ᏹ", "Ᏹ"); ("ᏺ", "Ᏺ"); ("ᏻ", "Ᏻ"); ("ᏼ", "Ᏼ");
   ("ᏽ", "Ᏽ"); ("ᲀ", "В"); ("ᲁ", "Д"); ("ᲂ", "О"); ("ᲃ", "С"); ("ᲄ", "Т");
   ("ᲅ", "Т"); ("ᲆ", "Ъ"); ("ᲇ", "Ѣ"); ("ᲈ", "Ꙋ"); ("ᵹ", "Ᵹ"); ("ᵽ", "Ᵽ");
   ("ᶎ", "Ᶎ"); ("ḁ", "Ḁ"); ("ḃ", "Ḃ"); ("ḅ", "Ḅ"); ("ḇ", "Ḇ"); ("ḉ", "Ḉ");
   ("ḋ", "Ḋ"); ("ḍ", "Ḍ"); ("ḏ", "Ḏ"); ("ḑ", "Ḑ"); ("ḓ", "Ḓ"); ("ḕ", "Ḕ");
   ("ḗ", "Ḗ"); ("ḙ", "Ḙ"); ("ḛ", "Ḛ"); ("ḝ", "Ḝ"); ("ḟ", "Ḟ"); ("ḡ", "Ḡ");
   ("ḣ", "Ḣ"); ("ḥ", "Ḥ"); ("ḧ", "Ḧ"); ("ḩ", "Ḩ"); ("ḫ", "Ḫ"); ("ḭ", "Ḭ");
   ("ḯ", "Ḯ"); ("ḱ", "Ḱ"); ("ḳ", "Ḳ"); ("ḵ", "Ḵ"); ("ḷ", "Ḷ"); ("ḹ", "Ḹ");
   ("ḻ", "Ḻ"); ("ḽ", "Ḽ"); ("ḿ", "Ḿ"); ("ṁ", "Ṁ"); ("ṃ", "Ṃ"); ("ṅ", "Ṅ");
   ("ṇ", "Ṇ"); ("ṉ", "Ṉ"); ("ṋ", "Ṋ"); ("ṍ", "Ṍ"); ("ṏ", "Ṏ"); ("ṑ", "Ṑ");
   ("ṓ", "Ṓ"); ("ṕ", "Ṕ"); ("ṗ", "Ṗ"); ("ṙ", "Ṙ"); ("ṛ", "Ṛ"); ("ṝ", "Ṝ");
   ("ṟ", "Ṟ"); ("ṡ", "Ṡ"); ("ṣ", "Ṣ"); ("ṥ", "Ṥ"); ("ṧ", "Ṧ"); ("ṩ", "Ṩ");
   ("ṫ", "Ṫ"); ("ṭ", "Ṭ"); ("ṯ", "Ṯ"); ("ṱ", "Ṱ"); ("ṳ", "Ṳ"); ("ṵ", "Ṵ");
   ("ṷ", "Ṷ"); ("ṹ", "Ṹ"); ("ṻ", "Ṻ"); ("ṽ", "Ṽ"); ("ṿ", "Ṿ"); ("ẁ", "Ẁ");
   ("ẃ", "Ẃ"); ("ẅ", "Ẅ"); ("ẇ", "Ẇ"); ("ẉ", "Ẉ"); ("ẋ", "Ẋ"); ("ẍ", "Ẍ");
   ("ẏ", "Ẏ"); ("ẑ", "Ẑ"); ("ẓ", "Ẓ"); ("ẕ", "Ẕ"); ("ẖ", "H̱");
   ("ẗ", "T̈"); ("ẘ", "W̊"); ("ẙ", "Y̊"); ("ẚ", "Aʾ"); ("ẛ", "Ṡ");
   ("ạ", "Ạ"); ("ả", "Ả"); ("ấ", "Ấ"); ("ầ", "Ầ"); ("ẩ", "Ẩ"); ("ẫ", "Ẫ");
   ("ậ", "Ậ"); ("ắ", "Ắ"); ("ằ", "Ằ"); ("ẳ", "Ẳ"); ("ẵ", "Ẵ"); ("ặ", "Ặ");
   ("ẹ", "Ẹ"); ("ẻ", "Ẻ"); ("ẽ", "Ẽ"); ("ế", "Ế"); ("ề", "Ề"); ("ể", "Ể");
   ("ễ", "Ễ"); ("ệ", "Ệ"); ("ỉ", "Ỉ"); ("ị", "Ị"); ("ọ", "Ọ"); ("ỏ", "Ỏ");
   ("ố", "Ố"); ("ồ", "Ồ"); ("ổ", "Ổ"); ("ỗ", "Ỗ"); ("ộ", "Ộ"); ("ớ", "Ớ");
   ("ờ", "Ờ"); ("ở", "Ở"); ("ỡ", "Ỡ"); ("ợ", "Ợ"); ("ụ", "Ụ"); ("ủ", "Ủ");
   ("ứ", "Ứ"); ("ừ", "Ừ"); ("ử", "Ử"); ("ữ", "Ữ"); ("ự", "Ự"); ("ỳ", "Ỳ");
   ("ỵ", "Ỵ"); ("ỷ", "Ỷ"); ("ỹ", "Ỹ"); ("ỻ", "Ỻ"); ("ỽ", "Ỽ"); ("ỿ", "Ỿ");
   ("ἀ", "Ἀ"); ("ἁ", "Ἁ"); ("ἂ", "Ἂ"); ("ἃ", "Ἃ"); ("ἄ", "Ἄ"); ("ἅ", "Ἅ");
   ("ἆ", "Ἆ"); ("ἇ", "Ἇ"); ("ἐ", "Ἐ"); ("ἑ", "Ἑ"); ("ἒ", "Ἒ"); ("ἓ", "Ἓ");
   ("ἔ", "Ἔ"); ("ἕ", "Ἕ"); ("ἠ", "Ἠ"); ("ἡ", "Ἡ"); ("ἢ", "Ἢ"); ("ἣ", "Ἣ");
   ("ἤ", "Ἤ"); ("ἥ", "Ἥ"); ("ἦ", "Ἦ"); ("ἧ", "Ἧ"); ("ἰ", "Ἰ"); ("ἱ", "Ἱ");
   ("ἲ", "Ἲ"); ("ἳ", "Ἳ"); ("ἴ", "Ἴ"); ("ἵ", "Ἵ"); ("ἶ", "Ἶ"); ("ἷ", "Ἷ");
   ("ὀ", "Ὀ"); ("ὁ", "Ὁ"); ("ὂ", "Ὂ"); ("ὃ", "Ὃ"); ("ὄ", "Ὄ"); ("ὅ", "Ὅ");
   ("ὐ", "Υ̓"); ("ὑ", "Ὑ"); ("ὒ", "Υ̓̀"); ("ὓ", "Ὓ"); ("ὔ", "Υ̓́");
   ("ὕ", "Ὕ"); ("ὖ", "Υ̓͂"); ("ὗ", "Ὗ"); ("ὠ", "Ὠ"); ("ὡ", "Ὡ");
   ("ὢ", "Ὢ"); ("ὣ", "Ὣ"); ("ὤ", "Ὤ"); ("ὥ", "Ὥ"); ("ὦ", "Ὦ"); ("ὧ", "Ὧ");
   ("ὰ", "Ὰ"); ("ά", "Ά"); ("ὲ", "Ὲ"); ("έ", "Έ"); ("ὴ", "Ὴ"); ("ή", "Ή");
   ("ὶ", "Ὶ"); ("ί", "Ί"); ("ὸ", "Ὸ"); ("ό", "Ό"); ("ὺ", "Ὺ"); ("ύ", "Ύ");
   ("ὼ", "Ὼ"); ("ώ", "Ώ"); ("ᾀ", "ἈΙ"); ("ᾁ", "ἉΙ"); ("ᾂ", "ἊΙ");
   ("ᾃ", "ἋΙ"); ("ᾄ", "ἌΙ"); ("ᾅ", "ἍΙ"); ("ᾆ", "ἎΙ"); ("ᾇ", "ἏΙ");
   ("ᾈ", "ἈΙ"); ("ᾉ", "ἉΙ"); ("ᾊ", "ἊΙ"); ("ᾋ", "ἋΙ"); ("ᾌ", "ἌΙ");
   ("ᾍ", "ἍΙ"); ("ᾎ", "ἎΙ"); ("ᾏ", "ἏΙ"); ("ᾐ", "ἨΙ"); ("ᾑ", "ἩΙ");
   ("ᾒ", "ἪΙ"); ("ᾓ", "ἫΙ"); ("ᾔ", "ἬΙ"); ("ᾕ", "ἭΙ"); ("ᾖ", "ἮΙ");
   ("ᾗ", "ἯΙ"); ("ᾘ", "ἨΙ"); ("ᾙ", "ἩΙ"); ("ᾚ", "ἪΙ"); ("ᾛ", "ἫΙ");
   ("ᾜ", "ἬΙ"); ("ᾝ", "ἭΙ"); ("ᾞ", "ἮΙ"); ("ᾟ", "ἯΙ"); ("ᾠ", "ὨΙ");
   ("ᾡ", "ὩΙ"); ("ᾢ", "ὪΙ"); ("ᾣ", "ὫΙ"); ("ᾤ", "ὬΙ"); ("ᾥ", "ὭΙ");
   ("ᾦ", "ὮΙ"); ("ᾧ", "ὯΙ"); ("ᾨ", "ὨΙ"); ("ᾩ", "ὩΙ"); ("ᾪ", "ὪΙ");
   ("ᾫ", "ὫΙ"); ("ᾬ", "ὬΙ"); ("ᾭ", "ὭΙ"); ("ᾮ", "ὮΙ"); ("ᾯ", "ὯΙ");
   ("ᾰ", "Ᾰ"); ("ᾱ", "Ᾱ"); ("ᾲ", "ᾺΙ"); ("ᾳ", "ΑΙ"); ("ᾴ", "ΆΙ");
   ("ᾶ", "Α͂"); ("ᾷ", "Α͂Ι"); ("ᾼ", "ΑΙ"); ("ι", "Ι"); ("ῂ", "ῊΙ");
   ("ῃ", "ΗΙ"); ("ῄ", "ΉΙ"); ("ῆ", "Η͂"); ("ῇ", "Η͂Ι"); ("ῌ", "ΗΙ");
   ("ῐ", "Ῐ"); ("ῑ", "Ῑ"); ("ῒ", "Ϊ̀"); ("ΐ", "Ϊ́"); ("ῖ", "Ι͂");
   ("ῗ", "Ϊ͂"); ("ῠ", "Ῠ"); ("ῡ", "Ῡ"); ("ῢ", "Ϋ̀"); ("ΰ", "Ϋ́");
   ("ῤ", "Ρ̓"); ("ῥ", "Ῥ"); ("ῦ", "Υ͂"); ("ῧ", "Ϋ͂"); ("ῲ", "ῺΙ");
   ("ῳ", "ΩΙ"); ("ῴ", "ΏΙ"); ("ῶ", "Ω͂"); ("ῷ", "Ω͂Ι"); ("ῼ", "ΩΙ");
   ("ⅎ", "Ⅎ"); ("ⅰ", "Ⅰ"); ("ⅱ", "Ⅱ"); ("ⅲ", "Ⅲ"); ("ⅳ", "Ⅳ"); ("ⅴ", "Ⅴ");
   ("ⅵ", "Ⅵ"); ("ⅶ", "Ⅶ"); ("ⅷ", "Ⅷ"); ("ⅸ", "Ⅸ"); ("ⅹ", "Ⅹ"); ("ⅺ", "Ⅺ");
   ("ⅻ", "Ⅻ"); ("ⅼ", "Ⅼ"); ("ⅽ", "Ⅽ"); ("ⅾ", "Ⅾ"); ("ⅿ", "Ⅿ"); ("ↄ", "Ↄ");
   ("ⓐ", "Ⓐ"); ("ⓑ", "Ⓑ"); ("ⓒ", "Ⓒ"); ("ⓓ", "Ⓓ"); ("ⓔ", "Ⓔ"); ("ⓕ", "Ⓕ");
   ("ⓖ", "Ⓖ"); ("ⓗ", "Ⓗ"); ("ⓘ", "Ⓘ"); ("ⓙ", "Ⓙ"); ("ⓚ", "Ⓚ"); ("ⓛ", "Ⓛ");
   ("ⓜ", "Ⓜ"); ("ⓝ", "Ⓝ"); ("ⓞ", "Ⓞ"); ("ⓟ", "Ⓟ"); ("ⓠ", "Ⓠ"); ("ⓡ", "Ⓡ");
   ("ⓢ", "Ⓢ"); ("ⓣ", "Ⓣ"); ("ⓤ", "Ⓤ"); ("ⓥ", "Ⓥ"); ("ⓦ", "Ⓦ"); ("ⓧ", "Ⓧ");
   ("ⓨ", "Ⓨ"); ("ⓩ", "Ⓩ"); ("ⰰ", "Ⰰ"); ("ⰱ", "Ⰱ"); ("ⰲ", "Ⰲ"); ("ⰳ", "Ⰳ");
   ("ⰴ", "Ⰴ"); ("ⰵ", "Ⰵ"); ("ⰶ", "Ⰶ"); ("ⰷ", "Ⰷ"); ("ⰸ", "Ⰸ"); ("ⰹ", "Ⰹ");
   ("ⰺ", "Ⰺ"); ("ⰻ", "Ⰻ"); ("ⰼ", "Ⰼ"); ("ⰽ", "Ⰽ"); ("ⰾ", "Ⰾ"); ("ⰿ", "Ⰿ");
   ("ⱀ", "Ⱀ"); ("ⱁ", "Ⱁ"); ("ⱂ", "Ⱂ"); ("ⱃ", "Ⱃ"); ("ⱄ", "Ⱄ"); ("ⱅ", "Ⱅ");
   ("ⱆ", "Ⱆ"); ("ⱇ", "Ⱇ"); ("ⱈ", "Ⱈ"); ("ⱉ", "Ⱉ"); ("ⱊ", "Ⱊ"); ("ⱋ", "Ⱋ");
   ("ⱌ", "Ⱌ"); ("ⱍ", "Ⱍ"); ("ⱎ", "Ⱎ"); ("ⱏ", "Ⱏ"); ("ⱐ", "Ⱐ"); ("ⱑ", "Ⱑ");
   ("ⱒ", "Ⱒ"); ("ⱓ", "Ⱓ"); ("ⱔ", "Ⱔ"); ("ⱕ", "Ⱕ"); ("ⱖ", "Ⱖ"); ("ⱗ", "Ⱗ");
   ("ⱘ", "Ⱘ"); ("ⱙ", "Ⱙ"); ("ⱚ", "Ⱚ"); ("ⱛ", "Ⱛ"); ("ⱜ", "Ⱜ"); ("ⱝ", "Ⱝ");
   ("ⱞ", "Ⱞ"); ("ⱟ", "Ⱟ"); ("ⱡ", "Ⱡ"); ("ⱥ", "Ⱥ"); ("ⱦ", "Ⱦ"); ("ⱨ", "Ⱨ");
   ("ⱪ", "Ⱪ"); ("ⱬ", "Ⱬ"); ("ⱳ", "Ⱳ"); ("ⱶ", "Ⱶ"); ("ⲁ", "Ⲁ"); ("ⲃ", "Ⲃ");
   ("ⲅ", "Ⲅ"); ("ⲇ", "Ⲇ"); ("ⲉ", "Ⲉ"); ("ⲋ", "Ⲋ"); ("ⲍ", "Ⲍ"); ("ⲏ", "Ⲏ");
   ("ⲑ", "Ⲑ"); ("ⲓ", "Ⲓ"); ("ⲕ", "Ⲕ"); ("ⲗ", "Ⲗ"); ("ⲙ", "Ⲙ"); ("ⲛ", "Ⲛ");
   ("ⲝ", "Ⲝ"); ("ⲟ", "Ⲟ"); ("ⲡ", "Ⲡ"); ("ⲣ", "Ⲣ"); ("ⲥ", "Ⲥ"); ("ⲧ", "Ⲧ");
   ("ⲩ", "Ⲩ"); ("ⲫ", "Ⲫ"); ("ⲭ", "Ⲭ"); ("ⲯ", "Ⲯ"); ("ⲱ", "Ⲱ"); ("ⲳ", "Ⲳ");
   ("ⲵ", "Ⲵ"); ("ⲷ", "Ⲷ"); ("ⲹ", "Ⲹ"); ("ⲻ", "Ⲻ"); ("ⲽ", "Ⲽ"); ("ⲿ", "Ⲿ");
   ("ⳁ", "Ⳁ"); ("ⳃ", "Ⳃ"); ("ⳅ", "Ⳅ"); ("ⳇ", "Ⳇ"); ("ⳉ", "Ⳉ"); ("ⳋ", "Ⳋ");
   ("ⳍ", "Ⳍ"); ("ⳏ", "Ⳏ"); ("ⳑ", "Ⳑ"); ("ⳓ", "Ⳓ"); ("ⳕ", "Ⳕ"); ("ⳗ", "Ⳗ");
   ("ⳙ", "Ⳙ"); ("ⳛ", "Ⳛ"); ("ⳝ", "Ⳝ"); ("ⳟ", "Ⳟ"); ("ⳡ", "Ⳡ"); ("ⳣ", "Ⳣ");
   ("ⳬ", "Ⳬ"); ("ⳮ", "Ⳮ"); ("ⳳ", "Ⳳ"); ("ⴀ", "Ⴀ"); ("ⴁ", "Ⴁ"); ("ⴂ", "Ⴂ");
   ("ⴃ", "Ⴃ"); ("ⴄ", "Ⴄ"); ("ⴅ", "Ⴅ"); ("ⴆ", "Ⴆ"); ("ⴇ", "Ⴇ"); ("ⴈ", "Ⴈ");
   ("ⴉ", "Ⴉ"); ("ⴊ", "Ⴊ"); ("ⴋ", "Ⴋ"); ("ⴌ", "Ⴌ"); ("ⴍ", "Ⴍ"); ("ⴎ", "Ⴎ");
   ("ⴏ", "Ⴏ"); ("ⴐ", "Ⴐ"); ("ⴑ", "Ⴑ"); ("ⴒ", "Ⴒ"); ("ⴓ", "Ⴓ"); ("ⴔ", "Ⴔ");
   ("ⴕ", "Ⴕ"); ("ⴖ", "Ⴖ"); ("ⴗ", "Ⴗ"); ("ⴘ", "Ⴘ"); ("ⴙ", "Ⴙ"); ("ⴚ", "Ⴚ");
   ("ⴛ", "Ⴛ"); ("ⴜ", "Ⴜ"); ("ⴝ", "Ⴝ"); ("ⴞ", "Ⴞ"); ("ⴟ", "Ⴟ"); ("ⴠ", "Ⴠ");
   ("ⴡ", "Ⴡ"); ("ⴢ", "Ⴢ"); ("ⴣ", "Ⴣ"); ("ⴤ", "Ⴤ"); ("ⴥ", "Ⴥ"); ("ⴧ", "Ⴧ");
   ("ⴭ", "Ⴭ"); ("ꙁ", "Ꙁ"); ("ꙃ", "Ꙃ"); ("ꙅ", "Ꙅ"); ("ꙇ", "Ꙇ"); ("ꙉ", "Ꙉ");
   ("ꙋ", "Ꙋ"); ("ꙍ", "Ꙍ"); ("ꙏ", "Ꙏ"); ("ꙑ", "Ꙑ"); ("ꙓ", "Ꙓ"); ("ꙕ", "Ꙕ");
   ("ꙗ", "Ꙗ"); ("ꙙ", "Ꙙ"); ("ꙛ", "Ꙛ"); ("ꙝ", "Ꙝ"); ("ꙟ", "Ꙟ"); ("ꙡ", "Ꙡ");
   ("ꙣ", "Ꙣ"); ("ꙥ", "Ꙥ"); ("ꙧ", "Ꙧ"); ("ꙩ", "Ꙩ"); ("ꙫ", "Ꙫ"); ("ꙭ", "Ꙭ");
   ("ꚁ", "Ꚁ"); ("ꚃ", "Ꚃ"); ("ꚅ", "Ꚅ"); ("ꚇ", "Ꚇ"); ("ꚉ", "Ꚉ"); ("ꚋ", "Ꚋ");
   ("ꚍ", "Ꚍ"); ("ꚏ", "Ꚏ"); ("ꚑ", "Ꚑ"); ("ꚓ", "Ꚓ"); ("ꚕ", "Ꚕ"); ("ꚗ", "Ꚗ");
   ("ꚙ", "Ꚙ"); ("ꚛ", "Ꚛ"); ("ꜣ", "Ꜣ"); ("ꜥ", "Ꜥ"); ("ꜧ", "Ꜧ"); ("ꜩ", "Ꜩ");
   ("ꜫ", "Ꜫ"); ("ꜭ", "Ꜭ"); ("ꜯ", "Ꜯ"); ("ꜳ", "Ꜳ"); ("ꜵ", "Ꜵ"); ("ꜷ", "Ꜷ");
   ("ꜹ", "Ꜹ"); ("ꜻ", "Ꜻ"); ("ꜽ", "Ꜽ"); ("ꜿ", "Ꜿ"); ("ꝁ", "Ꝁ"); ("ꝃ", "Ꝃ");
   ("ꝅ", "Ꝅ"); ("ꝇ", "Ꝇ"); ("ꝉ", "Ꝉ"); ("ꝋ", "Ꝋ"); ("ꝍ", "Ꝍ"); ("ꝏ", "Ꝏ");
   ("ꝑ", "Ꝑ"); ("ꝓ", "Ꝓ"); ("ꝕ", "Ꝕ"); ("ꝗ", "Ꝗ"); ("ꝙ", "Ꝙ"); ("ꝛ", "Ꝛ");
   ("ꝝ", "Ꝝ"); ("ꝟ", "Ꝟ"); ("ꝡ", "Ꝡ"); ("ꝣ", "Ꝣ"); ("ꝥ", "Ꝥ"); ("ꝧ", "Ꝧ");
   ("ꝩ", "Ꝩ"); ("ꝫ", "Ꝫ"); ("ꝭ", "Ꝭ"); ("ꝯ", "Ꝯ"); ("ꝺ", "Ꝺ"); ("ꝼ", "Ꝼ");
   ("ꝿ", "Ꝿ"); ("ꞁ", "Ꞁ"); ("ꞃ", "Ꞃ"); ("ꞅ", "Ꞅ"); ("ꞇ", "Ꞇ"); ("ꞌ", "Ꞌ");
   ("ꞑ", "Ꞑ"); ("ꞓ", "Ꞓ"); ("ꞔ", "Ꞔ"); ("ꞗ", "Ꞗ"); ("ꞙ", "Ꞙ"); ("ꞛ", "Ꞛ");
   ("ꞝ", "Ꞝ"); ("ꞟ", "Ꞟ"); ("ꞡ", "Ꞡ"); ("ꞣ", "Ꞣ"); ("ꞥ", "Ꞥ"); ("ꞧ", "Ꞧ");
   ("ꞩ", "Ꞩ"); ("ꞵ", "Ꞵ"); ("ꞷ", "Ꞷ"); ("ꞹ", "Ꞹ"); ("ꞻ", "Ꞻ"); ("ꞽ", "Ꞽ");
   ("ꞿ", "Ꞿ"); ("ꟁ", "Ꟁ"); ("ꟃ", "Ꟃ"); ("ꟈ", "Ꟈ"); ("ꟊ", "Ꟊ"); ("ꟑ", "Ꟑ");
   ("ꟗ", "Ꟗ"); ("ꟙ", "Ꟙ"); ("ꟶ", "Ꟶ"); ("ꭓ", "Ꭓ"); ("ꭰ", "Ꭰ"); ("ꭱ", "Ꭱ");
   ("ꭲ", "Ꭲ"); ("ꭳ", "Ꭳ"); ("ꭴ", "Ꭴ"); ("ꭵ", "Ꭵ"); ("ꭶ", "Ꭶ"); ("ꭷ", "Ꭷ");
   ("ꭸ", "Ꭸ"); ("ꭹ", "Ꭹ"); ("ꭺ", "Ꭺ"); ("ꭻ", "Ꭻ"); ("ꭼ", "Ꭼ"); ("ꭽ", "Ꭽ");
   ("ꭾ", "Ꭾ"); ("ꭿ", "Ꭿ"); ("ꮀ", "Ꮀ"); ("ꮁ", "Ꮁ"); ("ꮂ", "Ꮂ"); ("ꮃ", "Ꮃ");
   ("ꮄ", "Ꮄ"); ("ꮅ", "Ꮅ"); ("ꮆ", "Ꮆ"); ("ꮇ", "Ꮇ"); ("ꮈ", "Ꮈ"); ("ꮉ", "Ꮉ");
   ("ꮊ", "Ꮊ"); ("ꮋ", "Ꮋ"); ("ꮌ", "Ꮌ"); ("ꮍ", "Ꮍ"); ("ꮎ", "Ꮎ"); ("ꮏ", "Ꮏ");
   ("ꮐ", "Ꮐ"); ("ꮑ", "Ꮑ"); ("ꮒ", "Ꮒ"); ("ꮓ", "Ꮓ"); ("ꮔ", "Ꮔ"); ("ꮕ", "Ꮕ");
   ("ꮖ", "Ꮖ"); ("ꮗ", "Ꮗ"); ("ꮘ", "Ꮘ"); ("ꮙ", "Ꮙ"); ("ꮚ", "Ꮚ"); ("ꮛ", "Ꮛ");
   ("ꮜ", "Ꮜ"); ("ꮝ", "Ꮝ"); ("ꮞ", "Ꮞ"); ("ꮟ", "Ꮟ"); ("ꮠ", "Ꮠ"); ("ꮡ", "Ꮡ");
   ("ꮢ", "Ꮢ"); ("ꮣ", "Ꮣ"); ("ꮤ", "Ꮤ"); ("ꮥ", "Ꮥ"); ("ꮦ", "Ꮦ"); ("ꮧ", "Ꮧ");
   ("ꮨ", "Ꮨ"); ("ꮩ", "Ꮩ"); ("ꮪ", "Ꮪ"); ("ꮫ", "Ꮫ"); ("ꮬ", "Ꮬ"); ("ꮭ", "Ꮭ");
   ("ꮮ", "Ꮮ"); ("ꮯ", "Ꮯ"); ("ꮰ", "Ꮰ"); ("ꮱ", "Ꮱ"); ("ꮲ", "Ꮲ"); ("ꮳ", "Ꮳ");
   ("ꮴ", "Ꮴ"); ("ꮵ", "Ꮵ"); ("ꮶ", "Ꮶ"); ("ꮷ", "Ꮷ"); ("ꮸ", "Ꮸ"); ("ꮹ", "Ꮹ");
   ("ꮺ", "Ꮺ"); ("ꮻ", "Ꮻ"); ("ꮼ", "Ꮼ"); ("ꮽ", "Ꮽ"); ("ꮾ", "Ꮾ"); ("ꮿ", "Ꮿ");
   ("ﬀ", "FF"); ("ﬁ", "FI"); ("ﬂ", "FL"); ("ﬃ", "FFI"); ("ﬄ", "FFL");
   ("ﬅ", "ST"); ("ﬆ", "ST"); ("ﬓ", "ՄՆ"); ("ﬔ", "ՄԵ"); ("ﬕ", "ՄԻ");
   ("ﬖ", "ՎՆ"); ("ﬗ", "ՄԽ"); ("ａ", "Ａ"); ("ｂ", "Ｂ"); ("ｃ", "Ｃ");
   ("ｄ", "Ｄ"); ("ｅ", "Ｅ"); ("ｆ", "Ｆ"); ("ｇ", "Ｇ"); ("ｈ", "Ｈ"); ("ｉ", "Ｉ");
   ("ｊ", "Ｊ"); ("ｋ", "Ｋ"); ("ｌ", "Ｌ"); ("ｍ", "Ｍ"); ("ｎ", "Ｎ"); ("ｏ", "Ｏ");
   ("ｐ", "Ｐ"); ("ｑ", "Ｑ"); ("ｒ", "Ｒ"); ("ｓ", "Ｓ"); ("ｔ", "Ｔ"); ("ｕ", "Ｕ");
   ("ｖ", "Ｖ"); ("ｗ", "Ｗ"); ("ｘ", "Ｘ"); ("ｙ", "Ｙ"); ("ｚ", "Ｚ"); ("𐐨", "𐐀");
   ("𐐩", "𐐁"); ("𐐪", "𐐂"); ("𐐫", "𐐃"); ("𐐬", "𐐄"); ("𐐭", "𐐅"); ("𐐮", "𐐆");
   ("𐐯", "𐐇"); ("𐐰", "𐐈"); ("𐐱", "𐐉"); ("𐐲", "𐐊"); ("𐐳", "𐐋"); ("𐐴", "𐐌");
   ("𐐵", "𐐍"); ("𐐶", "𐐎"); ("𐐷", "𐐏"); ("𐐸", "𐐐"); ("𐐹", "𐐑"); ("𐐺", "𐐒");
   ("𐐻", "𐐓"); ("𐐼", "𐐔"); ("𐐽", "𐐕"); ("𐐾", "𐐖"); ("𐐿", "𐐗"); ("𐑀", "𐐘");
   ("𐑁", "𐐙"); ("𐑂", "𐐚"); ("𐑃", "𐐛"); ("𐑄", "𐐜"); ("𐑅", "𐐝"); ("𐑆", "𐐞");
   ("𐑇", "𐐟"); ("𐑈", "𐐠"); ("𐑉", "𐐡"); ("𐑊", "𐐢"); ("𐑋", "𐐣"); ("𐑌", "𐐤");
   ("𐑍", "𐐥"); ("𐑎", "𐐦"); ("𐑏", "𐐧"); ("𐓘", "𐒰"); ("𐓙", "𐒱"); ("𐓚", "𐒲");
   ("𐓛", "𐒳"); ("𐓜", "𐒴"); ("𐓝", "𐒵"); ("𐓞", "𐒶"); ("𐓟", "𐒷"); ("𐓠", "𐒸");
   ("𐓡", "𐒹"); ("𐓢", "𐒺"); ("𐓣", "𐒻"); ("𐓤", "𐒼"); ("𐓥", "𐒽"); ("𐓦", "𐒾");
   ("𐓧", "𐒿"); ("𐓨", "𐓀"); ("𐓩", "𐓁"); ("𐓪", "𐓂"); ("𐓫", "𐓃"); ("𐓬", "𐓄");
   ("𐓭", "𐓅"); ("𐓮", "𐓆"); ("𐓯", "𐓇"); ("𐓰", "𐓈"); ("𐓱", "𐓉"); ("𐓲", "𐓊");
   ("𐓳", "𐓋"); ("𐓴", "𐓌"); ("𐓵", "𐓍"); ("𐓶", "𐓎"); ("𐓷", "𐓏"); ("𐓸", "𐓐");
   ("𐓹", "𐓑"); ("𐓺", "𐓒"); ("𐓻", "𐓓"); ("𐖗", "𐕰"); ("𐖘", "𐕱"); ("𐖙", "𐕲");
   ("𐖚", "𐕳"); ("𐖛", "𐕴"); ("𐖜", "𐕵"); ("𐖝", "𐕶"); ("𐖞", "𐕷"); ("𐖟", "𐕸");
   ("𐖠", "𐕹"); ("𐖡", "𐕺"); ("𐖣", "𐕼"); ("𐖤", "𐕽"); ("𐖥", "𐕾"); ("𐖦", "𐕿");
   ("𐖧", "𐖀"); ("𐖨", "𐖁"); ("𐖩", "𐖂"); ("𐖪", "𐖃"); ("𐖫", "𐖄"); ("𐖬", "𐖅");
   ("𐖭", "𐖆"); ("𐖮", "𐖇"); ("𐖯", "𐖈"); ("𐖰", "𐖉"); ("𐖱", "𐖊"); ("𐖳", "𐖌");
   ("𐖴", "𐖍"); ("𐖵", "𐖎"); ("𐖶", "𐖏"); ("𐖷", "𐖐"); ("𐖸", "𐖑"); ("𐖹", "𐖒");
   ("𐖻", "𐖔"); ("𐖼", "𐖕"); ("𐳀", "𐲀"); ("𐳁", "𐲁"); ("𐳂", "𐲂"); ("𐳃", "𐲃");
   ("𐳄", "𐲄"); ("𐳅", "𐲅"); ("𐳆", "𐲆"); ("𐳇", "𐲇"); ("𐳈", "𐲈"); ("𐳉", "𐲉");
   ("𐳊", "𐲊"); ("𐳋", "𐲋"); ("𐳌", "𐲌"); ("𐳍", "𐲍"); ("𐳎", "𐲎"); ("𐳏", "𐲏");
   ("𐳐", "𐲐"); ("𐳑", "𐲑"); ("𐳒", "𐲒"); ("𐳓", "𐲓"); ("𐳔", "𐲔"); ("𐳕", "𐲕");
   ("𐳖", "𐲖"); ("𐳗", "𐲗"); ("𐳘", "𐲘"); ("𐳙", "𐲙"); ("𐳚", "𐲚"); ("𐳛", "𐲛");
   ("𐳜", "𐲜"); ("𐳝", "𐲝"); ("𐳞", "𐲞"); ("𐳟", "𐲟"); ("𐳠", "𐲠"); ("𐳡", "𐲡");
   ("𐳢", "𐲢"); ("𐳣", "𐲣"); ("𐳤", "𐲤"); ("𐳥", "𐲥"); ("𐳦", "𐲦"); ("𐳧", "𐲧");
   ("𐳨", "𐲨"); ("𐳩", "𐲩"); ("𐳪", "𐲪"); ("𐳫", "𐲫"); ("𐳬", "𐲬"); ("𐳭", "𐲭");
   ("𐳮", "𐲮"); ("𐳯", "𐲯"); ("𐳰", "𐲰"); ("𐳱", "𐲱"); ("𐳲", "𐲲"); ("𑣀", "𑢠");
   ("𑣁", "𑢡"); ("𑣂", "𑢢"); ("𑣃", "𑢣"); ("𑣄", "𑢤"); ("𑣅", "𑢥"); ("𑣆", "𑢦");
   ("𑣇", "𑢧"); ("𑣈", "𑢨"); ("𑣉", "𑢩"); ("𑣊", "𑢪"); ("𑣋", "𑢫"); ("𑣌", "𑢬");
   ("𑣍", "𑢭"); ("𑣎", "𑢮"); ("𑣏", "𑢯"); ("𑣐", "𑢰"); ("𑣑", "𑢱"); ("𑣒", "𑢲");
   ("𑣓", "𑢳"); ("𑣔", "𑢴"); ("𑣕", "𑢵"); ("𑣖", "𑢶"); ("𑣗", "𑢷"); ("𑣘", "𑢸");
   ("𑣙", "𑢹"); ("𑣚", "𑢺"); ("𑣛", "𑢻"); ("𑣜", "𑢼"); ("𑣝", "𑢽"); ("𑣞", "𑢾");
   ("𑣟", "𑢿"); ("𖹠", "𖹀"); ("𖹡", "𖹁"); ("𖹢", "𖹂"); ("𖹣", "𖹃"); ("𖹤", "𖹄");
   ("𖹥", "𖹅"); ("𖹦", "𖹆"); ("𖹧", "𖹇"); ("𖹨", "𖹈"); ("𖹩", "𖹉"); ("𖹪", "𖹊");
   ("𖹫", "𖹋"); ("𖹬", "𖹌"); ("𖹭", "𖹍"); ("𖹮", "𖹎"); ("𖹯", "𖹏"); ("𖹰", "𖹐");
   ("𖹱", "𖹑"); ("𖹲", "𖹒"); ("𖹳", "𖹓"); ("𖹴", "𖹔"); ("𖹵", "𖹕"); ("𖹶", "𖹖");
   ("𖹷", "𖹗"); ("𖹸", "𖹘"); ("𖹹", "𖹙"); ("𖹺", "𖹚"); ("𖹻", "𖹛"); ("𖹼", "𖹜");
   ("𖹽", "𖹝"); ("𖹾", "𖹞"); ("𖹿", "𖹟"); ("𞤢", "𞤀"); ("𞤣", "𞤁"); ("𞤤", "𞤂");
   ("𞤥", "𞤃"); ("𞤦", "𞤄"); ("𞤧", "𞤅"); ("𞤨", "𞤆"); ("𞤩", "𞤇"); ("𞤪", "𞤈");
   ("𞤫", "𞤉"); ("𞤬", "𞤊"); ("𞤭", "𞤋"); ("𞤮", "𞤌"); ("𞤯", "𞤍"); ("𞤰", "𞤎");
   ("𞤱", "𞤏"); ("𞤲", "𞤐"); ("𞤳", "𞤑"); ("𞤴", "𞤒"); ("𞤵", "𞤓"); ("𞤶", "𞤔");
   ("𞤷", "𞤕"); ("𞤸", "𞤖"); ("𞤹", "𞤗"); ("𞤺", "𞤘"); ("𞤻", "𞤙"); ("𞤼", "𞤚");
   ("𞤽", "𞤛"); ("𞤾", "𞤜"); ("𞤿", "𞤝"); ("𞥀", "𞤞"); ("𞥁", "𞤟"); ("𞥂", "𞤠");
   ("𞥃", "𞤡")].

(** The entry of the table for the code point [s] begins with. *)
Definition upper_entry (s : string) : option (string * string) :=
  List.find (fun e => starts_with e.1 s) upper_table.

(** [s.toUpperCase()]: an ASCII character gives its upper-case form, a
    code point of the table gives its mapping, [skip] counting the
    characters of it still to pass, and every other character is kept. *)
Fixpoint toUpperCase_from (skip : nat) (s : string) : string :=
  match s with
  | EmptyString => ""
  | String c s' =>
      match skip with
      | S k => toUpperCase_from k s'
      | O =>
          if is_ascii c then String (toUpperCase_char c) (toUpperCase_from 0 s')
          else
            match upper_entry s with
            | Some e => e.2 +:+ toUpperCase_from (String.length e.1 - 1) s'
            | None => String c (toUpperCase_from 0 s')
            end
      end
  end.

Definition toUpperCase (s : string) : string := toUpperCase_from 0 s.

End JS.

Infix "|||" := JS.or (at level 50, left associativity).

(** ** The command-line mapping [envArgs] *)

(** [envArgs] is an object that only ever receives these eight properties;
    a property never written, or written with [undefined], reads back as
    [undefined]. *)
Module EnvArgs.

Record t : Type := Build {
  clickupApiKey : option string;
  clickupTeamId : option string;
  documentSupport : option string;
  logLevel : option string;
  disabledTools : option string;
  enableSSE : option string;
  enableOAuth : option string;
  port : option string
}.

(** [{}] *)
Definition empty : t := Build None None None None None None None None.

Definition set_clickupApiKey (v : option string) (e : t) : t :=
  Build v (clickupTeamId e) (documentSupport e) (logLevel e)
        (disabledTools e) (enableSSE e) (enableOAuth e) (port e).
Definition set_clickupTeamId (v : option string) (e : t) : t :=
  Build (clickupApiKey e) v (documentSupport e) (logLevel e)
        (disabledTools e) (enableSSE e) (enableOAuth e) (port e).
Definition set_documentSupport (v : option string) (e : t) : t :=
  Build (clickupApiKey e) (clickupTeamId e) v (logLevel e)
        (disabledTools e) (enableSSE e) (enableOAuth e) (port e).
Definition set_logLevel (v : option string) (e : t) : t :=
  Build (clickupApiKey e) (clickupTeamId e) (documentSupport e) v
        (disabledTools e) (enableSSE e) (enableOAuth e) (port e).
Definition set_disabledTools (v : option string) (e : t) : t :=
  Build (clickupApiKey e) (clickupTeamId e) (documentSupport e) (logLevel e)
        v (enableSSE e) (enableOAuth e) (port e).
Definition set_enableSSE (v : option string) (e : t) : t :=
  Build (clickupApiKey e) (clickupTeamId e) (documentSupport e) (logLevel e)
        (disabledTools e) v (enableOAuth e) (port e).
Definition set_enableOAuth (v : option string) (e : t) : t :=
  Build (clickupApiKey e) (clickupTeamId e) (documentSupport e) (logLevel e)
        (disabledTools e) (enableSSE e) v (port e).
Definition set_port (v : option string) (e : t) : t :=
  Build (clickupApiKey e) (clickupTeamId e) (documentSupport e) (logLevel e)
        (disabledTools e) (enableSSE e) (enableOAuth e) v.

End EnvArgs.

(** [const [key, value] = token.split('=')]: the first two pieces, either
    of which is [undefined] when the array is too short. *)
Definition key_value (token : string) : option string * option string :=
  let pieces := JS.split "=" token in
  (pieces !! 0%nat, pieces !! 1%nat).

(** [if (key === name) envArgs.field = value;] *)
Definition when_key (key : option string) (name : string)
    (set : EnvArgs.t -> EnvArgs.t) (e : EnvArgs.t) : EnvArgs.t :=
  if JS.strict_eq key name then set e else e.

(** The body of the loop for the token that follows a [--env] marker: the
    eleven guarded assignments, in source order. *)
Definition assign (e : EnvArgs.t) (token : string) : EnvArgs.t :=
  let '(key, value) := key_value token in
  let e := when_key key "CLICKUP_API_KEY" (EnvArgs.set_clickupApiKey value) e in
  let e := when_key key "CLICKUP_TEAM_ID" (EnvArgs.set_clickupTeamId value) e in
  let e := when_key key "DOCUMENT_SUPPORT" (EnvArgs.set_documentSupport value) e in
  let e := when_key key "DOCUMENT_MODEL" (EnvArgs.set_documentSupport value) e in
  let e := when_key key "DOCUMENT_MODULE" (EnvArgs.set_documentSupport value) e in
  let e := when_key key "LOG_LEVEL" (EnvArgs.set_logLevel value) e in
  let e := when_key key "DISABLED_TOOLS" (EnvArgs.set_disabledTools value) e in
  let e := when_key key "DISABLED_COMMANDS" (EnvArgs.set_disabledTools value) e in
  let e := when_key key "ENABLE_SSE" (EnvArgs.set_enableSSE value) e in
  let e := when_key key "ENABLE_OAUTH" (EnvArgs.set_enableOAuth value) e in
  let e := when_key key "PORT" (EnvArgs.set_port value) e in
  e.

(** [for (let i = 0; i < args.length; i++)], read on the suffix of [args]
    that starts at index [i].  At a [--env] marker that is not the last
    argument the next argument is consumed as the token and the extra [i++]
    skips it; a marker in last position fails [i + 1 < args.length] and the
    loop ends; any other argument is stepped over. *)
Fixpoint envArgs_loop (args : list string) (e : EnvArgs.t) : EnvArgs.t :=
  match args with
  | [] => e
  | a :: rest =>
      if a =? "--env" then
        match rest with
        | [] => e
        | token :: rest' => envArgs_loop rest' (assign e token)
        end
      else envArgs_loop rest e
  end.

(** [const args = process.argv.slice(2)]. *)
Definition args_of (argv : list string) : list string := drop 2 argv.

Definition envArgs (args : list string) : EnvArgs.t :=
  envArgs_loop args EnvArgs.empty.

(** ** Log levels *)

Inductive LogLevel : Type := TRACE | DEBUG | INFO | WARN | ERROR.

(** The numeric value of each enum member. *)
Definition LogLevel_value (l : LogLevel) : N :=
  match l with
  | TRACE => 0
  | DEBUG => 1
  | INFO => 2
  | WARN => 3
  | ERROR => 4
  end.

(** [parseLogLevel]: the early return on a falsy argument, then the
    [switch] on the upper-cased string with its [default] branch. *)
Definition parseLogLevel (levelStr : option string) : LogLevel :=
  match levelStr with
  | None => ERROR
  | Some s =>
      if negb (JS.truthy levelStr) then ERROR
      else
        let u := JS.toUpperCase s in
        if u =? "TRACE" then TRACE
        else if u =? "DEBUG" then DEBUG
        else if u =? "INFO" then INFO
        else if u =? "WARN" then WARN
        else if u =? "ERROR" then ERROR
        else ERROR
  end.

(** ** The configuration record *)

Module Config.

Record t : Type := Build {
  clickupApiKey : string;
  clickupTeamId : string;
  enableSponsorMessage : bool;
  documentSupport : string;
  logLevel : LogLevel;
  disabledTools : list string;
  enableSSE : bool;
  enableOAuth : bool;
  port : option string
}.

End Config.

(** [raw.split(',').map(cmd => cmd.trim()).filter(cmd => cmd !== '')] *)
Definition split_tools (raw : string) : list string :=
  List.filter (fun cmd => negb (cmd =? ""))
    (List.map (fun cmd => JS.trim cmd) (JS.split "," raw)).

(** The object literal [configuration], field by field.  [env] is
    [process.env]; [e] is [envArgs].  For [disabledTools] the optional
    chain [?.] maps over the [string | undefined] operand and the closing
    [|| []] only replaces [undefined], an array being truthy even when
    empty. *)
Definition configuration (e : EnvArgs.t) (env : gmap string string) : Config.t :=
  {| Config.clickupApiKey :=
       JS.or_str (EnvArgs.clickupApiKey e ||| env !! "CLICKUP_API_KEY") "";
     Config.clickupTeamId :=
       JS.or_str (EnvArgs.clickupTeamId e ||| env !! "CLICKUP_TEAM_ID") "";
     Config.enableSponsorMessage :=
       negb (JS.strict_eq (env !! "ENABLE_SPONSOR_MESSAGE") "false");
     Config.documentSupport :=
       JS.or_str (EnvArgs.documentSupport e
                  ||| env !! "DOCUMENT_SUPPORT"
                  ||| env !! "DOCUMENT_MODULE"
                  ||| env !! "DOCUMENT_MODEL") "false";
     Config.logLevel :=
       parseLogLevel (EnvArgs.logLevel e ||| env !! "LOG_LEVEL");
     Config.disabledTools :=
       default [] (split_tools <$> (EnvArgs.disabledTools e
                                    ||| env !! "DISABLED_TOOLS"
                                    ||| env !! "DISABLED_COMMANDS"));
     Config.enableSSE :=
       JS.strict_eq (EnvArgs.enableSSE e) "true"
       || JS.strict_eq (env !! "ENABLE_SSE") "true" || false;
     Config.enableOAuth :=
       JS.strict_eq (EnvArgs.enableOAuth e) "true"
       || JS.strict_eq (env !! "ENABLE_OAUTH") "true" || false;
     Config.port :=
       Some (JS.or_str (EnvArgs.port e ||| env !! "PORT") "3231") |}.

(** ** Validation *)

Definition requiredVars : list string := ["clickupApiKey"; "clickupTeamId"].

(** [!configuration[key as keyof Config]]: the negated truthiness of the
    property named [key].  Strings are falsy when empty, numbers when zero,
    arrays never; a name that is no property reads [undefined]. *)
Definition not_property (c : Config.t) (key : string) : bool :=
  if key =? "clickupApiKey" then Config.clickupApiKey c =? ""
  else if key =? "clickupTeamId" then Config.clickupTeamId c =? ""
  else if key =? "enableSponsorMessage" then negb (Config.enableSponsorMessage c)
  else if key =? "documentSupport" then Config.documentSupport c =? ""
  else if key =? "logLevel" then (LogLevel_value (Config.logLevel c) =? 0)%N
  else if key =? "disabledTools" then false
  else if key =? "enableSSE" then negb (Config.enableSSE c)
  else if key =? "enableOAuth" then negb (Config.enableOAuth c)
  else if key =? "port" then negb (JS.truthy (Config.port c))
  else true.

Definition missingEnvVars (c : Config.t) : list string :=
  List.map (fun key => key) (List.filter (fun key => not_property c key) requiredVars).

(** What evaluating the module ends in: the default export, or the thrown
    [Error] with its message. *)
Inductive Outcome : Type :=
  | Exported (c : Config.t)
  | Thrown (message : string).

Definition validate (c : Config.t) : Outcome :=
  if negb (Config.enableOAuth c) then
    let missing := missingEnvVars c in
    if (0 <? length missing)%nat then
      Thrown ("Missing required environment variables: " +:+ JS.join ", " missing)
    else Exported c
  else Exported c.

(** The whole module on the arguments after [slice(2)] and the environment. *)
Definition resolve (args : list string) (env : gmap string string) : Outcome :=
  validate (configuration (envArgs args) env).

(** The whole module on [process.argv] and [process.env]. *)
Definition load (argv : list string) (env : gmap string string) : Outcome :=
  resolve (args_of argv) env.

(** ** Reference notions the properties are stated against *)

(** The precedence merger in the specification's words: of the sources,
    listed from highest to lowest priority, the first value that is present
    and non-empty. *)
Fixpoint first_supplied (sources : list (option string)) : option string :=
  match sources with
  | [] => None
  | None :: rest => first_supplied rest
  | Some s :: rest => if s =? "" then first_supplied rest else Some s
  end.

(** The merged value of a string field: the first supplied value, or the
    built-in default when no source supplies one. *)
Definition merged (sources : list (option string)) (dflt : string) : string :=
  default dflt (first_supplied sources).

(** A flag read the way the specification reads every field: coerce the
    first supplied raw value, which is true on exactly ["true"]. *)
Definition flag_of_first_supplied (cli env : option string) : bool :=
  JS.strict_eq (first_supplied [cli; env]) "true".

Definition is_upper (c : ascii) : bool :=
  let n := N_of_ascii c in ((65 <=? n) && (n <=? 90))%N.

Definition is_lower (c : ascii) : bool :=
  let n := N_of_ascii c in ((97 <=? n) && (n <=? 122))%N.

(** Two characters that are equal, or the lower-case and upper-case forms
    of one ASCII letter. *)
Definition same_letter (a b : ascii) : bool :=
  Ascii.eqb a b
  || (is_lower a && (N_of_ascii b =? N_of_ascii a - 32)%N)
  || (is_lower b && (N_of_ascii a =? N_of_ascii b - 32)%N).

(** Equality of strings up to the case of their ASCII letters. *)
Fixpoint eq_ignore_case (s t : string) : bool :=
  match s, t with
  | EmptyString, EmptyString => true
  | String a s', String b t' => same_letter a b && eq_ignore_case s' t'
  | _, _ => false
  end.

(** Occurrence of a character in a string. *)
Fixpoint occurs (c : ascii) (s : string) : bool :=
  match s with
  | EmptyString => false
  | String a s' => Ascii.eqb a c || occurs c s'
  end.

(** The first character of a string, if any. *)
Definition first_char (s : string) : option ascii :=
  match s with
  | EmptyString => None
  | String a _ => Some a
  end.

(** [w] is the end of [s]. *)
Fixpoint ends_with (w s : string) : bool :=
  match s with
  | EmptyString => w =? ""
  | String _ s' => (w =? s) || ends_with w s'
  end.

(** A string made of white space code points only. *)
Inductive white : string -> Prop :=
  | white_empty : white ""
  | white_cons (w l : string) :
      In w JS.white_space -> white l -> white (w +:+ l).

(** A string with no white space code point at either end. *)
Definition trimmed (s : string) : Prop :=
  forall w, In w JS.white_space ->
            JS.starts_with w s = false /\ ends_with w s = false.

(** Every character of the string satisfies [p]. *)
Fixpoint all_chars (p : ascii -> bool) (s : string) : bool :=
  match s with
  | EmptyString => true
  | String a s' => p a && all_chars p s'
  end.

(** The lower-case form of an upper-case ASCII letter. *)
Definition lower_of (n : ascii) : ascii := ascii_of_N (N_of_ascii n + 32).

(** The ways to write something that upper-cases to the ASCII letter [n]
    alone: the letter, its lower-case form, and, of the letters beyond
    ASCII, the dotless i (U+0131) for [I] and the long s (U+017F) for [S]. *)
Definition spellings (n : ascii) : list string :=
  ([String n ""; String (lower_of n) ""]
   ++ (if Ascii.eqb n "I" then ["ı"] else [])
   ++ (if Ascii.eqb n "S" then ["ſ"] else []))%list.

(** [s] is the name [name] written letter by letter in such spellings. *)
Fixpoint spells (s name : string) : bool :=
  match name with
  | EmptyString => s =? ""
  | String n name' =>
      existsb (fun w => JS.starts_with w s
                        && spells (JS.string_drop (String.length w) s) name')
              (spellings n)
  end.

(** The entries of the table whose mapping begins with an ASCII
    character. *)
Definition upper_heads : list (string * string) :=
  List.filter (fun e => from_option JS.is_ascii false (first_char e.2))
              JS.upper_table.

Fixpoint suffixes (s : string) : list string :=
  s :: match s with
       | EmptyString => []
       | String _ s' => suffixes s'
       end.

(** A name of upper-case ASCII letters in which no mapping of the table
    longer than one character occurs (such as [SS], [FI] or [ST]), so that
    it can only be produced letter by letter. *)
Definition plain_name (name : string) : bool :=
  all_chars is_upper name
  && forallb (fun sfx =>
       forallb (fun e => implb (JS.starts_with e.2 sfx)
                               (String.length e.2 =? 1)%nat) upper_heads)
       (suffixes name).

(** The arguments the tokenizer reads as tokens, in order: scanning from
    the left, the argument after a [--env] marker, the scan resuming behind
    it (so a token is never itself taken for a marker). *)
Fixpoint env_tokens (args : list string) : list string :=
  match args with
  | [] => []
  | a :: rest =>
      if a =? "--env" then
        match rest with
        | [] => []
        | token :: rest' => token :: env_tokens rest'
        end
      else env_tokens rest
  end.

(** The key of a token names one of the aliases of a group. *)
Definition names_alias (group : list string) (token : string) : bool :=
  existsb (fun name => JS.strict_eq (key_value token).1 name) group.

(** The value of the last token, in argument order, whose key is an alias
    of the group; [None] when there is none or when that token carries no
    value. *)
Definition last_written (group : list string) (tokens : list string) : option string :=
  last (List.filter (names_alias group) tokens) ≫= (fun token => (key_value token).2).

Definition document_aliases : list string :=
  ["DOCUMENT_SUPPORT"; "DOCUMENT_MODEL"; "DOCUMENT_MODULE"].

Definition tool_aliases : list string := ["DISABLED_TOOLS"; "DISABLED_COMMANDS"].

(** Supplying a list of [(name, value)] pairs on the command line, as one
    [--env name=value] pair each, and in the environment. *)
Definition as_cli (pairs : list (string * string)) : list string :=
  flat_map (fun p => ["--env"; p.1 +:+ "=" +:+ p.2]) pairs.

Definition as_env (pairs : list (string * string)) : gmap string string :=
  list_to_map pairs.

(** ** The tokenizer loop by index *)

(** How a run of the [for] statement ends: normally, with the final
    [envArgs]; with the [TypeError] that [undefined.split] would raise; or
    cut short by the iteration budget of the model. *)
Inductive LoopResult : Type :=
  | Finished (e : EnvArgs.t)
  | TypeError
  | OutOfFuel.

(** The [for] statement as written, on the index [i]: the test
    [i < args.length]; the guard [args[i] === '--env' && i + 1 < args.length];
    the read of [args[i + 1]], whose [split] throws on [undefined]; the
    assignments; the [i++] of the body followed by the [i++] of the loop.
    [fuel] bounds the number of iterations. *)
Fixpoint for_loop (fuel : nat) (args : list string) (i : nat) (e : EnvArgs.t)
    : LoopResult :=
  if (i <? length args)%nat then
    match fuel with
    | O => OutOfFuel
    | S fuel' =>
        if JS.strict_eq (args !! i) "--env" && (i + 1 <? length args)%nat then
          match args !! (i + 1)%nat with
          | Some token => for_loop fuel' args (i + 1 + 1) (assign e token)
          | None => TypeError
          end
        else for_loop fuel' args (i + 1) e
    end
  else Finished e.

(** The eleven keys the loop body compares against, in source order. *)
Definition recognised_keys : list string :=
  ["CLICKUP_API_KEY"; "CLICKUP_TEAM_ID"; "DOCUMENT_SUPPORT"; "DOCUMENT_MODEL";
   "DOCUMENT_MODULE"; "LOG_LEVEL"; "DISABLED_TOOLS"; "DISABLED_COMMANDS";
   "ENABLE_SSE"; "ENABLE_OAUTH"; "PORT"].

(** The token of a [(name, value)] pair, as [as_cli] writes it. *)
Definition pair_token (p : string * string) : string := p.1 +:+ "=" +:+ p.2.

(** The name of each member of the [LogLevel] enum (the reverse mapping
    [LogLevel[value]] of a numeric enum). *)
Definition LogLevel_name (l : LogLevel) : string :=
  match l with
  | TRACE => "TRACE"
  | DEBUG => "DEBUG"
  | INFO => "INFO"
  | WARN => "WARN"
  | ERROR => "ERROR"
  end.

(** A well-formed tool name: non-empty, no white space at either end, no
    comma. *)
Definition tool_name (name : string) : Prop :=
  name <> "" /\ trimmed name /\ occurs "," name = false.

(** The [environment] entries of the compose file's service. *)
Definition compose_environment : gmap string string :=
  list_to_map [("ENABLE_OAUTH", "true"); ("LOG_LEVEL", "info");
               ("DOCUMENT_SUPPORT", "true"); ("PORT", "8000")].

(** ** Truthiness and the [||] chains *)

Lemma truthy_Some (s : string) : JS.truthy (Some s) = negb (s =? "").
Proof. reflexivity. Qed.

Lemma truthy_spec (v : option string) :
  JS.truthy v = true <-> exists s, v = Some s /\ s <> "".
Proof.
  destruct v as [s|]; simpl.
  - destruct (String.eqb_spec s "") as [->|Hne]; simpl; split.
    + discriminate.
    + intros (s & [= <-] & Hs). by destruct Hs.
    + eauto.
    + done.
  - split; [discriminate | by intros (s & [=] & _)].
Qed.

Lemma or_str_or (a b : option string) (d : string) :
  JS.or_str (a ||| b) d = JS.or_str a (JS.or_str b d).
Proof.
  destruct a as [[|c s]|]; try reflexivity.
Qed.

Lemma merged_cons (a : option string) (rest : list (option string)) (d : string) :
  merged (a :: rest) d = JS.or_str a (merged rest d).
Proof.
  unfold merged. destruct a as [[|c s]|]; reflexivity.
Qed.

Lemma merged_nil (d : string) : merged [] d = d.
Proof. reflexivity. Qed.

(** A consumer that cannot tell falsy values apart sees the first supplied
    value behind a chain of two or three [||]. *)
Lemma or_chain2 {A} (f : option string -> A) (a b : option string) :
  f (Some "") = f None ->
  f (a ||| b) = f (first_supplied [a; b]).
Proof.
  intros Hf. destruct a as [[|c s]|], b as [[|c' s']|]; cbn; congruence.
Qed.

Lemma or_chain3 {A} (f : option string -> A) (a b c : option string) :
  f (Some "") = f None ->
  f (a ||| b ||| c) = f (first_supplied [a; b; c]).
Proof.
  intros Hf.
  destruct a as [[|? ?]|], b as [[|? ?]|], c as [[|? ?]|]; cbn; congruence.
Qed.

Lemma first_supplied_head (v : string) (rest : list (option string)) :
  v <> "" -> first_supplied (Some v :: rest) = Some v.
Proof.
  intros Hv. simpl. by destruct (String.eqb_spec v "").
Qed.

Lemma first_supplied_skip_empty (rest : list (option string)) :
  first_supplied (Some "" :: rest) = first_supplied rest.
Proof. reflexivity. Qed.

Lemma first_supplied_skip_absent (rest : list (option string)) :
  first_supplied (None :: rest) = first_supplied rest.
Proof. reflexivity. Qed.

Lemma first_supplied_nonempty (sources : list (option string)) (v : string) :
  first_supplied sources = Some v -> v <> "" /\ Some v ∈ sources.
Proof.
  induction sources as [|[s|] rest IH]; simpl; [done | |].
  - destruct (String.eqb_spec s "") as [->|Hs].
    + intros H. destruct (IH H). split; [done | by right].
    + intros [= <-]. split; [done | by left].
  - intros H. destruct (IH H). split; [done | by right].
Qed.

Lemma strict_eq_true (v : option string) (lit : string) :
  JS.strict_eq v lit = true <-> v = Some lit.
Proof.
  destruct v as [s|]; simpl; [|done].
  rewrite String.eqb_eq. split; [by intros -> | by intros [= ->]].
Qed.

Lemma flag_true (a b : option string) :
  JS.strict_eq a "true" || JS.strict_eq b "true" || false = true
  <-> a = Some "true" \/ b = Some "true".
Proof.
  rewrite orb_false_r, orb_true_iff, !strict_eq_true. done.
Qed.

Lemma parseLogLevel_falsy : parseLogLevel (Some "") = parseLogLevel None.
Proof. reflexivity. Qed.

Lemma split_tools_falsy :
  default [] (split_tools <$> Some "") = default [] (split_tools <$> None).
Proof. reflexivity. Qed.

(** ** Precedence of the sources *)

Lemma precedence_source_strings (e : EnvArgs.t) (env : gmap string string) :
  let c := configuration e env in
  Config.clickupApiKey c
    = merged [EnvArgs.clickupApiKey e; env !! "CLICKUP_API_KEY"] ""
  /\ Config.clickupTeamId c
    = merged [EnvArgs.clickupTeamId e; env !! "CLICKUP_TEAM_ID"] ""
  /\ Config.documentSupport c
    = merged [EnvArgs.documentSupport e; env !! "DOCUMENT_SUPPORT";
              env !! "DOCUMENT_MODULE"; env !! "DOCUMENT_MODEL"] "false"
  /\ Config.port c
    = Some (merged [EnvArgs.port e; env !! "PORT"] "3231").
Proof.
  cbn zeta. unfold configuration.
  cbn [Config.clickupApiKey Config.clickupTeamId Config.documentSupport Config.port].
  by rewrite !or_str_or, !merged_cons, !merged_nil.
Qed.

Lemma precedence_source_lists (e : EnvArgs.t) (env : gmap string string) :
  let c := configuration e env in
  Config.logLevel c
    = parseLogLevel (first_supplied [EnvArgs.logLevel e; env !! "LOG_LEVEL"])
  /\ Config.disabledTools c
    = default [] (split_tools <$>
        first_supplied [EnvArgs.disabledTools e; env !! "DISABLED_TOOLS";
                        env !! "DISABLED_COMMANDS"]).
Proof.
  cbn zeta. unfold configuration. cbn [Config.logLevel Config.disabledTools].
  split.
  - apply (or_chain2 parseLogLevel), parseLogLevel_falsy.
  - apply (or_chain3 (fun v => default [] (split_tools <$> v))), split_tools_falsy.
Qed.

Lemma flags_iff (e : EnvArgs.t) (env : gmap string string) :
  let c := configuration e env in
  (Config.enableSSE c = true
   <-> EnvArgs.enableSSE e = Some "true" \/ env !! "ENABLE_SSE" = Some "true")
  /\ (Config.enableOAuth c = true
      <-> EnvArgs.enableOAuth e = Some "true" \/ env !! "ENABLE_OAUTH" = Some "true").
Proof. cbn zeta. split; apply flag_true. Qed.

(** Were each flag the coercion of its first supplied raw value, a
    command-line ["false"] would win over an environment ["true"].  It does
    not: with [--env ENABLE_SSE=false] and [ENABLE_SSE=true] the flag
    resolves to true. *)
Lemma cli_flag_does_not_override_env :
  ~ (forall (args : list string) (env : gmap string string),
       Config.enableSSE (configuration (envArgs args) env)
       = flag_of_first_supplied (EnvArgs.enableSSE (envArgs args))
                                (env !! "ENABLE_SSE")).
Proof.
  intros H.
  specialize (H ["--env"; "ENABLE_SSE=false"] {["ENABLE_SSE" := "true"]}).
  vm_compute in H. discriminate H.
Qed.

(** C1 (the code at the failing input): with [ENABLE_SSE=false] and
    [ENABLE_OAUTH=false] on the command line and both variables ["true"] in
    the environment, the first supplied value of each flag is the command
    line's ["false"], yet both flags resolve to true and the
    required-variable check is skipped; the port, given on the command line
    and in the environment as well, resolves to the command line's value as
    the claim says. *)
Theorem cli_flag_loses_to_env :
  let args := ["--env"; "ENABLE_SSE=false"; "--env"; "ENABLE_OAUTH=false";
               "--env"; "PORT=1"] in
  let env : gmap string string :=
    <["ENABLE_SSE" := "true"]> (<["ENABLE_OAUTH" := "true"]> {["PORT" := "2"]}) in
  first_supplied [EnvArgs.enableSSE (envArgs args); env !! "ENABLE_SSE"]
  = Some "false"
  /\ first_supplied [EnvArgs.enableOAuth (envArgs args); env !! "ENABLE_OAUTH"]
     = Some "false"
  /\ Config.enableSSE (configuration (envArgs args) env) = true
  /\ Config.enableOAuth (configuration (envArgs args) env) = true
  /\ Config.port (configuration (envArgs args) env) = Some "1"
  /\ resolve args env
     = Exported (Config.Build "" "" true "false" ERROR [] true true (Some "1"))
  /\ ~ (forall (args : list string) (env : gmap string string),
          Config.enableSSE (configuration (envArgs args) env)
          = flag_of_first_supplied (EnvArgs.enableSSE (envArgs args))
                                   (env !! "ENABLE_SSE")).
Proof.
  cbn zeta. do 6 (split; [vm_compute; reflexivity|]).
  exact cli_flag_does_not_override_env.
Qed.

(** X18: the API key, the team identifier, the document-support string,
    the port, and the raw strings behind the log level and the disabled-tool
    list are each the first present and non-empty value among the
    command-line value, the environment variable(s) and the default, in
    that order, so an empty command-line value falls through and a non-empty
    one wins over the environment (team id ["A"] on the command line and
    ["B"] in the environment resolve to ["A"]).  As the code stands, each of
    the two flags is true exactly when the command-line value or the
    environment value is ["true"]. *)
Theorem precedence_of_sources (e : EnvArgs.t) (env : gmap string string) :
  let c := configuration e env in
  Config.clickupApiKey c
    = merged [EnvArgs.clickupApiKey e; env !! "CLICKUP_API_KEY"] ""
  /\ Config.clickupTeamId c
    = merged [EnvArgs.clickupTeamId e; env !! "CLICKUP_TEAM_ID"] ""
  /\ Config.documentSupport c
    = merged [EnvArgs.documentSupport e; env !! "DOCUMENT_SUPPORT";
              env !! "DOCUMENT_MODULE"; env !! "DOCUMENT_MODEL"] "false"
  /\ Config.port c
    = Some (merged [EnvArgs.port e; env !! "PORT"] "3231")
  /\ Config.logLevel c
    = parseLogLevel (first_supplied [EnvArgs.logLevel e; env !! "LOG_LEVEL"])
  /\ Config.disabledTools c
    = default [] (split_tools <$>
        first_supplied [EnvArgs.disabledTools e; env !! "DISABLED_TOOLS";
                        env !! "DISABLED_COMMANDS"])
  /\ (Config.enableSSE c = true
      <-> EnvArgs.enableSSE e = Some "true" \/ env !! "ENABLE_SSE" = Some "true")
  /\ (Config.enableOAuth c = true
      <-> EnvArgs.enableOAuth e = Some "true" \/ env !! "ENABLE_OAUTH" = Some "true")
  /\ Config.clickupTeamId
       (configuration (envArgs ["--env"; "CLICKUP_TEAM_ID=A"])
                      {["CLICKUP_TEAM_ID" := "B"]}) = "A"
  /\ Config.clickupTeamId
       (configuration (envArgs ["--env"; "CLICKUP_TEAM_ID="])
                      {["CLICKUP_TEAM_ID" := "B"]}) = "B".
Proof.
  cbn zeta.
  destruct (precedence_source_strings e env) as (Hkey & Hteam & Hdoc & Hport).
  destruct (precedence_source_lists e env) as (Hlevel & Htools).
  destruct (flags_iff e env) as (Hsse & Hoauth).
  do 8 (split; [assumption|]).
  split; vm_compute; reflexivity.
Qed.

(** ** Required variables *)

Lemma validate_cases (c : Config.t) :
  validate c =
    if Config.enableOAuth c then Exported c
    else match Config.clickupApiKey c =? "", Config.clickupTeamId c =? "" with
         | true, true =>
             Thrown "Missing required environment variables: clickupApiKey, clickupTeamId"
         | true, false =>
             Thrown "Missing required environment variables: clickupApiKey"
         | false, true =>
             Thrown "Missing required environment variables: clickupTeamId"
         | false, false => Exported c
         end.
Proof.
  unfold validate, missingEnvVars, requiredVars.
  destruct (Config.enableOAuth c); [reflexivity|].
  cbn [negb List.filter not_property String.eqb Ascii.eqb Bool.eqb].
  cbn -[append].
  destruct (Config.clickupApiKey c =? ""), (Config.clickupTeamId c =? "");
    reflexivity.
Qed.

Lemma validate_throws_iff (c : Config.t) :
  (exists m, validate c = Thrown m)
  <-> Config.enableOAuth c = false
      /\ (Config.clickupApiKey c = "" \/ Config.clickupTeamId c = "").
Proof.
  rewrite validate_cases, <- !String.eqb_eq.
  destruct (Config.enableOAuth c), (Config.clickupApiKey c =? ""),
    (Config.clickupTeamId c =? ""); split;
    first [ by intros [m [=]]
          | by intros [[=] _]
          | by intros [_ [[=]|[=]]]
          | by eauto ].
Qed.

(** C2: resolution throws exactly when the resolved OAuth flag is false and
    the API key or the team identifier resolved to the empty string; the
    one error message then lists every empty required field, both names
    when both are empty; with the OAuth flag true the record is exported
    even with both fields empty, and they stay empty strings. *)
Theorem required_variables (args : list string) (env : gmap string string) :
  let c := configuration (envArgs args) env in
  ((exists m, resolve args env = Thrown m)
   <-> Config.enableOAuth c = false
       /\ (Config.clickupApiKey c = "" \/ Config.clickupTeamId c = ""))
  /\ resolve args env =
       (if Config.enableOAuth c then Exported c
        else match Config.clickupApiKey c =? "", Config.clickupTeamId c =? "" with
             | true, true =>
                 Thrown "Missing required environment variables: clickupApiKey, clickupTeamId"
             | true, false =>
                 Thrown "Missing required environment variables: clickupApiKey"
             | false, true =>
                 Thrown "Missing required environment variables: clickupTeamId"
             | false, false => Exported c
             end)
  /\ resolve [] {["ENABLE_OAUTH" := "true"]}
     = Exported (Config.Build "" "" true "false" ERROR [] false true (Some "3231"))
  /\ resolve [] ∅
     = Thrown "Missing required environment variables: clickupApiKey, clickupTeamId".
Proof.
  cbn zeta. split; [apply validate_throws_iff|].
  split; [apply validate_cases|].
  split; vm_compute; reflexivity.
Qed.

(** ** The tokenizer *)

Lemma append_cons (c : ascii) (s t : string) :
  String c s +:+ t = String c (s +:+ t).
Proof. reflexivity. Qed.

Lemma append_empty_l (t : string) : "" +:+ t = t.
Proof. reflexivity. Qed.

Lemma append_empty_r (s : string) : s +:+ "" = s.
Proof.
  induction s as [|c s IH]; [done|]. by rewrite append_cons, IH.
Qed.

Lemma split_nonempty (sep : ascii) (s : string) : JS.split sep s <> [].
Proof.
  destruct s as [|c s]; simpl; [done|].
  destruct (Ascii.eqb c sep); [done|]. by destruct (JS.split sep s).
Qed.

(** No piece of a split contains the separator. *)
Lemma split_pieces_free (sep : ascii) (s : string) :
  Forall (fun piece => occurs sep piece = false) (JS.split sep s).
Proof.
  induction s as [|c s IH]; simpl.
  - by repeat constructor.
  - destruct (Ascii.eqb c sep) eqn:Hc.
    + by constructor.
    + destruct (JS.split sep s) as [|piece pieces].
      * repeat constructor. simpl. by rewrite Hc.
      * inversion_clear IH. constructor; [|done]. simpl. by rewrite Hc.
Qed.

Lemma join_cons (sep x y : string) (l : list string) :
  JS.join sep (x :: y :: l) = x +:+ sep +:+ JS.join sep (y :: l).
Proof. reflexivity. Qed.

(** Joining the pieces with the separator gives the string back. *)
Lemma join_split (sep : ascii) (s : string) :
  JS.join (String sep "") (JS.split sep s) = s.
Proof.
  induction s as [|c s IH]; cbn [JS.split]; [done|].
  destruct (JS.split sep s) as [|piece pieces] eqn:Hs;
    [by destruct (split_nonempty sep s)|].
  destruct (Ascii.eqb_spec c sep) as [->|Hc].
  - rewrite join_cons, IH. reflexivity.
  - destruct pieces as [|piece' pieces].
    + cbn in *. by rewrite IH.
    + rewrite join_cons in *. rewrite <- IH. reflexivity.
Qed.

Lemma split_free (sep : ascii) (s : string) :
  occurs sep s = false -> JS.split sep s = [s].
Proof.
  induction s as [|c s IH]; [done|]. cbn [occurs JS.split].
  intros [Hc Hs]%orb_false_iff. by rewrite Hc, (IH Hs).
Qed.

Lemma split_app_sep (sep : ascii) (k rest : string) :
  occurs sep k = false ->
  JS.split sep (k +:+ String sep rest) = k :: JS.split sep rest.
Proof.
  induction k as [|c k IH].
  - intros _. rewrite append_empty_l. cbn [JS.split].
    by rewrite Ascii.eqb_refl.
  - cbn [occurs]. intros [Hc Hk]%orb_false_iff.
    rewrite append_cons. cbn [JS.split]. by rewrite Hc, (IH Hk).
Qed.

(** On a token with a single [=] the pair is the text before it and the
    text after it. *)
Lemma key_value_pair (k v : string) :
  occurs "=" k = false -> occurs "=" v = false ->
  key_value (k +:+ "=" +:+ v) = (Some k, Some v).
Proof.
  intros Hk Hv. unfold key_value.
  change (k +:+ "=" +:+ v) with (k +:+ String "=" v).
  by rewrite (split_app_sep _ _ _ Hk), (split_free _ _ Hv).
Qed.

(** On a token with more than one [=] the value stops at the second. *)
Lemma key_value_cut (k v rest : string) :
  occurs "=" k = false -> occurs "=" v = false ->
  key_value (k +:+ "=" +:+ v +:+ "=" +:+ rest) = (Some k, Some v).
Proof.
  intros Hk Hv. unfold key_value.
  change (k +:+ "=" +:+ v +:+ "=" +:+ rest)
    with (k +:+ String "=" (v +:+ String "=" rest)).
  by rewrite (split_app_sep _ _ _ Hk), (split_app_sep _ _ _ Hv).
Qed.

(** A token without [=] has a key and no value. *)
Lemma key_value_bare (k : string) :
  occurs "=" k = false -> key_value k = (Some k, None).
Proof.
  intros Hk. unfold key_value. by rewrite (split_free _ _ Hk).
Qed.

Lemma value_has_no_equals (token : string) :
  from_option (occurs "=") false (key_value token).2 = false.
Proof.
  unfold key_value. cbn [snd].
  destruct (JS.split "=" token !! 1%nat) as [v|] eqn:Hv; [|done]. simpl.
  pose proof (split_pieces_free "=" token) as H.
  rewrite Forall_lookup in H. exact (H _ _ Hv).
Qed.

Lemma occurs_app (c : ascii) (s t : string) :
  occurs c (s +:+ t) = occurs c s || occurs c t.
Proof.
  induction s as [|a s IH]; simpl; [done|]. by rewrite IH, orb_assoc.
Qed.

(** A [KEY=VALUE] token is never the marker. *)
Lemma pair_is_not_marker (k v : string) : (k +:+ "=" +:+ v =? "--env") = false.
Proof.
  apply String.eqb_neq. intros H.
  assert (occurs "=" (k +:+ "=" +:+ v) = true) as Ho.
  { rewrite occurs_app. simpl. by rewrite orb_true_r. }
  rewrite H in Ho. discriminate Ho.
Qed.

Lemma assign_marker (e : EnvArgs.t) : assign e "--env" = e.
Proof. reflexivity. Qed.

(** The loop is the fold of the assignments over the consumed tokens.  The
    loop steps by one or by two arguments, so the statement is proved for a
    list and for the list with one more argument in front together. *)
Lemma envArgs_loop_fold_step (args : list string) :
  (forall e, envArgs_loop args e = fold_left assign (env_tokens args) e)
  /\ (forall a e,
        envArgs_loop (a :: args) e = fold_left assign (env_tokens (a :: args)) e).
Proof.
  induction args as [|token rest [IH1 IH2]].
  - split; [done|]. intros a e. simpl. by destruct (a =? "--env").
  - split; [exact (IH2 token)|].
    intros a e. cbn [envArgs_loop env_tokens].
    destruct (a =? "--env").
    + cbn [fold_left]. apply IH1.
    + apply IH2.
Qed.

Lemma envArgs_loop_fold (args : list string) (e : EnvArgs.t) :
  envArgs_loop args e = fold_left assign (env_tokens args) e.
Proof. apply envArgs_loop_fold_step. Qed.

(** The interpreter and the script path, the first two entries of
    [process.argv], are not arguments. *)
Lemma load_slices_argv (node script : string) (args : list string)
    (env : gmap string string) :
  load (node :: script :: args) env = resolve args env.
Proof. reflexivity. Qed.

(** C3 (the code at the failing input): the token is split at every [=]
    and only the first two pieces are read, so [--env CLICKUP_API_KEY=a=b]
    yields the value ["a"], not ["a=b"]: whatever follows the second [=] is
    lost, and no value the tokenizer extracts ever contains an [=]. *)
Theorem value_cut_at_second_equals :
  key_value "CLICKUP_API_KEY=a=b" = (Some "CLICKUP_API_KEY", Some "a")
  /\ EnvArgs.clickupApiKey (envArgs ["--env"; "CLICKUP_API_KEY=a=b"]) = Some "a"
  /\ EnvArgs.clickupApiKey (envArgs ["--env"; "CLICKUP_API_KEY=a=b"]) <> Some "a=b"
  /\ resolve ["--env"; "CLICKUP_API_KEY=a=b"; "--env"; "CLICKUP_TEAM_ID=t"] ∅
     = Exported (Config.Build "a" "t" true "false" ERROR [] false false (Some "3231"))
  /\ (forall rest : string,
        EnvArgs.clickupApiKey (envArgs ["--env"; "CLICKUP_API_KEY=a=" +:+ rest])
        = Some "a")
  /\ (forall token : string,
        from_option (occurs "=") false (key_value token).2 = false).
Proof.
  split; [reflexivity|].
  split; [reflexivity|].
  split; [discriminate|].
  split; [vm_compute; reflexivity|].
  split; [|exact value_has_no_equals].
  intros rest. unfold envArgs. cbn [envArgs_loop String.eqb Ascii.eqb Bool.eqb].
  cbn match. unfold assign.
  change ("CLICKUP_API_KEY=a=" +:+ rest)
    with ("CLICKUP_API_KEY" +:+ "=" +:+ "a" +:+ "=" +:+ rest).
  rewrite key_value_cut by reflexivity. reflexivity.
Qed.

(** C10: a [--env] marker directly followed by another [--env] consumes the
    second one as its token, whose key is no recognised name, and resumes
    after it; a [KEY=VALUE] argument in third position is then stepped over
    as an ordinary argument, so [--env --env CLICKUP_API_KEY=x] leaves
    [envArgs] empty and resolves exactly as no arguments at all, although
    [--env CLICKUP_API_KEY=x] alone sets the key. *)
Theorem marker_after_marker_drops_pair :
  (forall (rest : list string) (e : EnvArgs.t),
     envArgs_loop ("--env" :: "--env" :: rest) e = envArgs_loop rest e)
  /\ (forall (k v : string) (rest : list string) (e : EnvArgs.t),
        envArgs_loop ("--env" :: "--env" :: (k +:+ "=" +:+ v) :: rest) e
        = envArgs_loop rest e)
  /\ env_tokens ["--env"; "--env"; "CLICKUP_API_KEY=x"] = ["--env"]
  /\ envArgs ["--env"; "--env"; "CLICKUP_API_KEY=x"] = EnvArgs.empty
  /\ (forall env : gmap string string,
        resolve ["--env"; "--env"; "CLICKUP_API_KEY=x"] env = resolve [] env)
  /\ EnvArgs.clickupApiKey (envArgs ["--env"; "CLICKUP_API_KEY=x"]) = Some "x".
Proof.
  split; [reflexivity|].
  split.
  { intros k v rest e.
    change (envArgs_loop ((k +:+ "=" +:+ v) :: rest) e = envArgs_loop rest e).
    cbn [envArgs_loop]. by rewrite pair_is_not_marker. }
  repeat split; reflexivity.
Qed.

(** ** Flags *)

(** C5: each of the SSE and OAuth flags is true only when a raw value is
    exactly ["true"]: it is true exactly when the command-line value or the
    environment value is that string, so a raw value supplied alone, from
    either source, resolves to its comparison with ["true"]; ["TRUE"],
    ["True"], ["1"] and an absent value all give false.  The coercion is
    part of the total function [configuration] and has no failing case. *)
Theorem flags_true_on_exact_true
    (e : EnvArgs.t) (env : gmap string string) (raw : string) :
  let c := configuration e env in
  (Config.enableSSE c = true
   <-> EnvArgs.enableSSE e = Some "true" \/ env !! "ENABLE_SSE" = Some "true")
  /\ (Config.enableOAuth c = true
      <-> EnvArgs.enableOAuth e = Some "true" \/ env !! "ENABLE_OAUTH" = Some "true")
  /\ Config.enableSSE
       (configuration (EnvArgs.set_enableSSE None e) (<["ENABLE_SSE" := raw]> env))
     = (raw =? "true")
  /\ Config.enableSSE
       (configuration (EnvArgs.set_enableSSE (Some raw) e) (delete "ENABLE_SSE" env))
     = (raw =? "true")
  /\ Config.enableSSE
       (configuration (EnvArgs.set_enableSSE None e) (delete "ENABLE_SSE" env))
     = false
  /\ Config.enableOAuth
       (configuration (EnvArgs.set_enableOAuth None e) (<["ENABLE_OAUTH" := raw]> env))
     = (raw =? "true")
  /\ Config.enableOAuth
       (configuration (EnvArgs.set_enableOAuth (Some raw) e) (delete "ENABLE_OAUTH" env))
     = (raw =? "true")
  /\ Config.enableOAuth
       (configuration (EnvArgs.set_enableOAuth None e) (delete "ENABLE_OAUTH" env))
     = false
  /\ Forall (fun raw =>
       Config.enableSSE (configuration (envArgs []) {["ENABLE_SSE" := raw]}) = false
       /\ Config.enableOAuth (configuration (envArgs []) {["ENABLE_OAUTH" := raw]}) = false
       /\ Config.enableSSE (configuration (envArgs ["--env"; "ENABLE_SSE=" +:+ raw]) ∅) = false
       /\ Config.enableOAuth (configuration (envArgs ["--env"; "ENABLE_OAUTH=" +:+ raw]) ∅) = false)
       ["TRUE"; "True"; "1"; ""; "yes"; "false"]
  /\ Config.enableSSE (configuration (envArgs []) {["ENABLE_SSE" := "true"]}) = true
  /\ Config.enableSSE (configuration (envArgs ["--env"; "ENABLE_SSE=true"]) ∅) = true
  /\ Config.enableSSE (configuration (envArgs []) ∅) = false
  /\ Config.enableOAuth (configuration (envArgs []) ∅) = false.
Proof.
  cbn zeta. unfold configuration. cbn [Config.enableSSE Config.enableOAuth
    EnvArgs.enableSSE EnvArgs.enableOAuth EnvArgs.set_enableSSE
    EnvArgs.set_enableOAuth].
  split; [apply flag_true|]. split; [apply flag_true|].
  rewrite !lookup_insert_eq, !lookup_delete_eq. cbn [JS.strict_eq orb].
  rewrite !orb_false_r.
  do 6 (split; [reflexivity|]).
  split; [|by vm_compute].
  repeat constructor; vm_compute; reflexivity.
Qed.

(** C8: the sponsor-message flag is true unless [ENABLE_SPONSOR_MESSAGE] is
    exactly ["false"] in the environment, and the command line has no part
    in it: whatever the arguments, and whatever [envArgs] holds, the flag is
    the same; [--env ENABLE_SPONSOR_MESSAGE=false] leaves it true. *)
Theorem sponsor_message_from_env_only
    (args args' : list string) (e e' : EnvArgs.t) (env : gmap string string) :
  Config.enableSponsorMessage (configuration (envArgs args) env)
  = Config.enableSponsorMessage (configuration (envArgs args') env)
  /\ Config.enableSponsorMessage (configuration e env)
     = Config.enableSponsorMessage (configuration e' env)
  /\ (Config.enableSponsorMessage (configuration e env) = false
      <-> env !! "ENABLE_SPONSOR_MESSAGE" = Some "false")
  /\ Config.enableSponsorMessage
       (configuration (envArgs ["--env"; "ENABLE_SPONSOR_MESSAGE=false"]) ∅) = true
  /\ Config.enableSponsorMessage
       (configuration (envArgs []) {["ENABLE_SPONSOR_MESSAGE" := "false"]}) = false
  /\ Config.enableSponsorMessage
       (configuration (envArgs []) {["ENABLE_SPONSOR_MESSAGE" := "False"]}) = true.
Proof.
  split; [reflexivity|]. split; [reflexivity|].
  split.
  { cbn. rewrite negb_false_iff. apply strict_eq_true. }
  repeat split; vm_compute; reflexivity.
Qed.

(** ** Aliases *)

Lemma assign_document_model (v : string) (e : EnvArgs.t) :
  assign e ("DOCUMENT_MODEL=" +:+ v) = assign e ("DOCUMENT_SUPPORT=" +:+ v).
Proof.
  unfold assign, key_value. cbn.
  destruct (JS.split "=" v) as [|piece pieces] eqn:Hv;
    [by destruct (split_nonempty "=" v)|].
  reflexivity.
Qed.

(** C9: [DOCUMENT_MODEL] supplied alone resolves the document-support field
    exactly as [DOCUMENT_SUPPORT] supplied alone with the same value, on the
    command line and in the environment; with the value ["true"] both give
    ["true"].  The equality holds for any value, and whatever the rest of
    the arguments and of the environment is. *)
Theorem document_model_alias
    (v : string) (rest : list string) (e : EnvArgs.t) (env : gmap string string) :
  let env0 :=
    delete "DOCUMENT_SUPPORT" (delete "DOCUMENT_MODULE" (delete "DOCUMENT_MODEL" env)) in
  Config.documentSupport
    (configuration (envArgs_loop ("--env" :: ("DOCUMENT_MODEL=" +:+ v) :: rest) e) env)
  = Config.documentSupport
      (configuration (envArgs_loop ("--env" :: ("DOCUMENT_SUPPORT=" +:+ v) :: rest) e) env)
  /\ Config.documentSupport (configuration e (<["DOCUMENT_MODEL" := v]> env0))
     = Config.documentSupport (configuration e (<["DOCUMENT_SUPPORT" := v]> env0))
  /\ Config.documentSupport
       (configuration (envArgs ["--env"; "DOCUMENT_MODEL=true"]) ∅) = "true"
  /\ Config.documentSupport
       (configuration (envArgs ["--env"; "DOCUMENT_SUPPORT=true"]) ∅) = "true"
  /\ Config.documentSupport
       (configuration (envArgs []) {["DOCUMENT_MODEL" := "true"]}) = "true"
  /\ Config.documentSupport
       (configuration (envArgs []) {["DOCUMENT_SUPPORT" := "true"]}) = "true".
Proof.
  cbn zeta. split.
  { cbn [envArgs_loop String.eqb Ascii.eqb Bool.eqb]. cbn match.
    by rewrite assign_document_model. }
  split.
  { unfold configuration. cbn [Config.documentSupport].
    rewrite !lookup_insert_eq.
    rewrite !lookup_insert_ne by done.
    rewrite !lookup_delete_eq.
    rewrite !(lookup_delete_ne _ "DOCUMENT_SUPPORT" "DOCUMENT_MODULE") by done.
    rewrite !lookup_delete_eq.
    rewrite !(lookup_delete_ne _ "DOCUMENT_SUPPORT" "DOCUMENT_MODEL") by done.
    rewrite !(lookup_delete_ne _ "DOCUMENT_MODULE" "DOCUMENT_MODEL") by done.
    rewrite !lookup_delete_eq.
    destruct (EnvArgs.documentSupport e) as [[|? ?]|], v; reflexivity. }
  repeat split; vm_compute; reflexivity.
Qed.

Section field_written_by_group.
(** A field of [envArgs] and the alias group whose assignments write it:
    an assignment overwrites the field with the token's value when the
    token's key is an alias of the group and leaves it alone otherwise. *)
Variable proj : EnvArgs.t -> option string.
Variable group : list string.
Hypothesis assign_proj : forall (e : EnvArgs.t) (token : string),
  proj (assign e token)
  = if names_alias group token then (key_value token).2 else proj e.

Lemma fold_assign_proj (tokens : list string) (e : EnvArgs.t) :
  proj (fold_left assign tokens e)
  = match last (List.filter (names_alias group) tokens) with
    | Some token => (key_value token).2
    | None => proj e
    end.
Proof using assign_proj.
  revert e. induction tokens as [|token tokens IH]; intros e; [done|].
  cbn [fold_left List.filter]. rewrite IH, assign_proj.
  destruct (names_alias group token); [|done].
  rewrite last_cons. by destruct (last (List.filter _ tokens)).
Qed.

Lemma envArgs_proj (args : list string) :
  proj EnvArgs.empty = None ->
  proj (envArgs args) = last_written group (env_tokens args).
Proof using assign_proj.
  intros Hempty. unfold envArgs, last_written.
  rewrite envArgs_loop_fold, fold_assign_proj, Hempty.
  by destruct (last _).
Qed.
End field_written_by_group.

Lemma when_key_other {A} (proj : EnvArgs.t -> A) (key : option string)
    (name : string) (set : EnvArgs.t -> EnvArgs.t) (e : EnvArgs.t) :
  (forall e', proj (set e') = proj e') ->
  proj (when_key key name set e) = proj e.
Proof.
  intros H. unfold when_key. by destruct (JS.strict_eq key name).
Qed.

Lemma assign_documentSupport (e : EnvArgs.t) (token : string) :
  EnvArgs.documentSupport (assign e token)
  = if names_alias document_aliases token then (key_value token).2
    else EnvArgs.documentSupport e.
Proof.
  unfold assign, names_alias, document_aliases.
  destruct (key_value token) as [key value]. cbn [fst snd existsb].
  rewrite !(when_key_other EnvArgs.documentSupport) by reflexivity.
  unfold when_key at 1 2 3.
  destruct (JS.strict_eq key "DOCUMENT_MODULE"),
    (JS.strict_eq key "DOCUMENT_MODEL"),
    (JS.strict_eq key "DOCUMENT_SUPPORT"); cbn;
    rewrite ?(when_key_other EnvArgs.documentSupport) by reflexivity;
    reflexivity.
Qed.

Lemma assign_disabledTools (e : EnvArgs.t) (token : string) :
  EnvArgs.disabledTools (assign e token)
  = if names_alias tool_aliases token then (key_value token).2
    else EnvArgs.disabledTools e.
Proof.
  unfold assign, names_alias, tool_aliases.
  destruct (key_value token) as [key value]. cbn [fst snd existsb].
  rewrite !(when_key_other EnvArgs.disabledTools) by reflexivity.
  unfold when_key at 1 2.
  destruct (JS.strict_eq key "DISABLED_COMMANDS"),
    (JS.strict_eq key "DISABLED_TOOLS"); cbn;
    rewrite ?(when_key_other EnvArgs.disabledTools) by reflexivity;
    reflexivity.
Qed.

(** C4, as stated: supplying the same aliases with the same values on the
    command line and in the environment would resolve to the same value.
    With [DOCUMENT_SUPPORT=a] and [DOCUMENT_MODEL=b], in that order, the
    command line resolves to ["b"] and the environment to ["a"]. *)
Lemma cli_aliases_resolve_unlike_env :
  ~ (forall pairs : list (string * string),
       NoDup pairs.*1 ->
       Forall (fun p => p.1 ∈ document_aliases /\ p.2 <> ""
                        /\ occurs "=" p.2 = false) pairs ->
       Config.documentSupport (configuration (envArgs (as_cli pairs)) ∅)
       = Config.documentSupport (configuration (envArgs []) (as_env pairs))).
Proof.
  intros H.
  specialize (H [("DOCUMENT_SUPPORT", "a"); ("DOCUMENT_MODEL", "b")]).
  assert (Config.documentSupport
            (configuration
               (envArgs (as_cli [("DOCUMENT_SUPPORT", "a"); ("DOCUMENT_MODEL", "b")])) ∅)
          = "b") as Hcli by (vm_compute; reflexivity).
  assert (Config.documentSupport
            (configuration (envArgs [])
               (as_env [("DOCUMENT_SUPPORT", "a"); ("DOCUMENT_MODEL", "b")]))
          = "a") as Henv by (vm_compute; reflexivity).
  rewrite Hcli, Henv in H.
  enough ("b" = "a") by discriminate.
  apply H.
  - apply (bool_decide_unpack _). vm_compute. exact I.
  - repeat constructor; cbn; try discriminate; unfold document_aliases;
      set_solver.
Qed.

(** C4 (amended): each alias group feeds one field, so one value is kept,
    but the two sources choose it differently.  From the environment it is
    the first non-empty variable in the fixed order [DOCUMENT_SUPPORT],
    [DOCUMENT_MODULE], [DOCUMENT_MODEL] (resp. [DISABLED_TOOLS],
    [DISABLED_COMMANDS]).  From the command line it is the value of the
    last [--env] pair, in argument order, whose key is any alias of the
    group: later pairs overwrite earlier ones whatever their names. *)
Theorem alias_groups
    (args : list string) (e : EnvArgs.t) (env : gmap string string) :
  EnvArgs.documentSupport (envArgs args)
  = last_written document_aliases (env_tokens args)
  /\ EnvArgs.disabledTools (envArgs args)
     = last_written tool_aliases (env_tokens args)
  /\ Config.documentSupport (configuration (EnvArgs.set_documentSupport None e) env)
     = merged [env !! "DOCUMENT_SUPPORT"; env !! "DOCUMENT_MODULE";
               env !! "DOCUMENT_MODEL"] "false"
  /\ Config.disabledTools (configuration (EnvArgs.set_disabledTools None e) env)
     = default [] (split_tools <$>
         first_supplied [env !! "DISABLED_TOOLS"; env !! "DISABLED_COMMANDS"])
  /\ Config.documentSupport
       (configuration
          (envArgs ["--env"; "DOCUMENT_SUPPORT=a"; "--env"; "DOCUMENT_MODEL=b"]) ∅)
     = "b"
  /\ Config.documentSupport
       (configuration
          (envArgs ["--env"; "DOCUMENT_MODEL=b"; "--env"; "DOCUMENT_SUPPORT=a"]) ∅)
     = "a"
  /\ Config.documentSupport
       (configuration (envArgs [])
          (<["DOCUMENT_SUPPORT" := "a"]> {["DOCUMENT_MODEL" := "b"]}))
     = "a"
  /\ Config.documentSupport
       (configuration (envArgs [])
          (<["DOCUMENT_MODEL" := "b"]> {["DOCUMENT_MODULE" := "m"]}))
     = "m"
  /\ Config.disabledTools
       (configuration
          (envArgs ["--env"; "DISABLED_TOOLS=x"; "--env"; "DISABLED_COMMANDS=y"]) ∅)
     = ["y"]
  /\ Config.disabledTools
       (configuration (envArgs [])
          (<["DISABLED_TOOLS" := "x"]> {["DISABLED_COMMANDS" := "y"]}))
     = ["x"].
Proof.
  split.
  { apply (envArgs_proj _ _ assign_documentSupport). reflexivity. }
  split.
  { apply (envArgs_proj _ _ assign_disabledTools). reflexivity. }
  split.
  { destruct (precedence_source_strings (EnvArgs.set_documentSupport None e) env)
      as (_ & _ & -> & _). reflexivity. }
  split.
  { destruct (precedence_source_lists (EnvArgs.set_disabledTools None e) env)
      as (_ & ->). reflexivity. }
  repeat split; vm_compute; reflexivity.
Qed.

(** ** Characters *)

Lemma ascii_eqb_N (a b : ascii) :
  Ascii.eqb a b = (N_of_ascii a =? N_of_ascii b)%N.
Proof.
  destruct (Ascii.eqb_spec a b) as [->|Hne].
  - by rewrite N.eqb_refl.
  - symmetry. apply N.eqb_neq. intros H. apply Hne.
    by rewrite <- (ascii_N_embedding a), <- (ascii_N_embedding b), H.
Qed.

Lemma N_of_toUpperCase_char (c : ascii) :
  N_of_ascii (JS.toUpperCase_char c)
  = if is_lower c then (N_of_ascii c - 32)%N else N_of_ascii c.
Proof.
  unfold JS.toUpperCase_char, is_lower. cbn zeta.
  destruct (_ && _) eqn:H; [|done].
  apply N_ascii_embedding. pose proof (N_ascii_bounded c). lia.
Qed.

(** Two characters are the same letter up to case exactly when their
    upper-case forms coincide. *)
Lemma same_letter_toUpperCase (a b : ascii) :
  same_letter a b = Ascii.eqb (JS.toUpperCase_char a) (JS.toUpperCase_char b).
Proof.
  unfold same_letter.
  rewrite !ascii_eqb_N, !N_of_toUpperCase_char. unfold is_lower. cbn zeta.
  generalize (N_of_ascii a) (N_of_ascii b). intros na nb.
  apply eq_true_iff_eq.
  destruct (N.leb_spec 97 na), (N.leb_spec na 122),
    (N.leb_spec 97 nb), (N.leb_spec nb 122); cbn [andb];
    rewrite ?orb_true_iff, ?andb_true_iff, ?N.eqb_eq;
    intuition (try discriminate; try lia).
Qed.

(** ** Strings *)

Lemma append_assoc (a b c : string) : (a +:+ b) +:+ c = a +:+ b +:+ c.
Proof.
  induction a as [|x a IH]; [done|]. by rewrite !append_cons, IH.
Qed.

Lemma length_append (a b : string) :
  String.length (a +:+ b) = (String.length a + String.length b)%nat.
Proof.
  induction a as [|x a IH]; [done|].
  rewrite append_cons. cbn [String.length]. by rewrite IH.
Qed.

Lemma starts_with_spec (w s : string) :
  JS.starts_with w s = true <-> s = w +:+ JS.string_drop (String.length w) s.
Proof.
  revert s. induction w as [|a w IH]; intros s; [done|].
  destruct s as [|b s]; cbn [JS.starts_with String.length JS.string_drop].
  - split; [done|]. by rewrite append_cons.
  - rewrite append_cons, andb_true_iff, IH. split.
    + intros [->%Ascii.eqb_eq Hs]. by rewrite <- Hs.
    + intros [= -> Hs]. by rewrite Ascii.eqb_refl.
Qed.

Lemma string_drop_app (w r : string) :
  JS.string_drop (String.length w) (w +:+ r) = r.
Proof.
  induction w as [|a w IH]; [by destruct r|]. by rewrite append_cons.
Qed.

Lemma starts_with_app (w r : string) : JS.starts_with w (w +:+ r) = true.
Proof.
  apply starts_with_spec. by rewrite string_drop_app.
Qed.

Lemma starts_with_weaken (w a r : string) :
  JS.starts_with w a = true -> JS.starts_with w (a +:+ r) = true.
Proof.
  intros H%starts_with_spec. rewrite H, append_assoc. apply starts_with_app.
Qed.

(** Two beginnings of one string: one is a beginning of the other. *)
Lemma starts_with_both (a b s : string) :
  JS.starts_with a s = true -> JS.starts_with b s = true ->
  JS.starts_with a b = true \/ JS.starts_with b a = true.
Proof.
  revert b s. induction a as [|x a IH]; intros b s; [by left|].
  destruct b as [|y b]; [by right|].
  destruct s as [|z s]; [done|]. cbn [JS.starts_with].
  intros [->%Ascii.eqb_eq Ha]%andb_true_iff [->%Ascii.eqb_eq Hb]%andb_true_iff.
  rewrite Ascii.eqb_refl. cbn [andb]. by eapply IH.
Qed.

Lemma ends_with_refl (w : string) : ends_with w w = true.
Proof.
  destruct w; cbn [ends_with]; by rewrite String.eqb_refl.
Qed.

Lemma ends_with_app (w l s : string) :
  ends_with w s = true -> ends_with w (l +:+ s) = true.
Proof.
  intros H. induction l as [|a l IH]; [done|].
  rewrite append_cons. cbn [ends_with]. by rewrite IH, orb_true_r.
Qed.

Lemma ends_with_spec (w s : string) :
  ends_with w s = true <-> exists l, s = l +:+ w.
Proof.
  split.
  - induction s as [|a s IH]; cbn [ends_with].
    + intros ->%String.eqb_eq. by exists "".
    + intros [->%String.eqb_eq | H]%orb_true_iff; [by exists ""|].
      destruct (IH H) as [l ->]. by exists (String a l).
  - intros [l ->]. apply ends_with_app, ends_with_refl.
Qed.

(** ** White space *)

Lemma white_space_nonempty (w : string) : In w JS.white_space -> w <> "".
Proof.
  assert (forallb (fun w => negb (w =? "")) JS.white_space = true) as H
    by (vm_compute; reflexivity).
  rewrite forallb_forall in H. intros Hw ->. by apply H in Hw.
Qed.

(** No white space code point begins another one. *)
Lemma white_space_prefix_free (a b : string) :
  In a JS.white_space -> In b JS.white_space ->
  JS.starts_with a b = true -> a = b.
Proof.
  assert (forallb (fun a => forallb (fun b =>
            implb (JS.starts_with a b) (a =? b)) JS.white_space)
            JS.white_space = true) as H by (vm_compute; reflexivity).
  rewrite forallb_forall in H. intros Ha Hb Hab.
  specialize (H a Ha). rewrite forallb_forall in H. specialize (H b Hb).
  rewrite Hab in H. by apply String.eqb_eq.
Qed.

Lemma space_prefix_Some (s w : string) :
  JS.space_prefix s = Some w ->
  In w JS.white_space /\ s = w +:+ JS.string_drop (String.length w) s.
Proof.
  intros [Hw Hs]%find_some. split; [done|]. by apply starts_with_spec.
Qed.

Lemma space_prefix_None (s w : string) :
  JS.space_prefix s = None -> In w JS.white_space ->
  JS.starts_with w s = false.
Proof.
  intros H Hw. exact (find_none _ _ H w Hw).
Qed.

Lemma space_prefix_app (w l : string) :
  In w JS.white_space -> JS.space_prefix (w +:+ l) = Some w.
Proof.
  intros Hw. destruct (JS.space_prefix (w +:+ l)) as [w'|] eqn:H.
  - apply find_some in H as [Hw' H].
    destruct (starts_with_both w' w _ H (starts_with_app w l)) as [H'|H'].
    + by rewrite (white_space_prefix_free _ _ Hw' Hw H').
    + by rewrite (white_space_prefix_free _ _ Hw Hw' H').
  - pose proof (starts_with_app w l) as H'.
    by rewrite (space_prefix_None _ w H Hw) in H'.
Qed.

Lemma white_app (a b : string) : white a -> white b -> white (a +:+ b).
Proof.
  induction 1 as [|w l Hw _ IH]; [done|]. intros Hb.
  rewrite append_assoc. by constructor; [|apply IH].
Qed.

Lemma white_one (w : string) : In w JS.white_space -> white w.
Proof.
  intros Hw. rewrite <- (append_empty_r w).
  apply white_cons; [exact Hw | apply white_empty].
Qed.

(** ** [trimStart] *)

Lemma trimStart_from_drop (k : nat) (s : string) :
  JS.trimStart_from k s = JS.trimStart (JS.string_drop k s).
Proof.
  revert k. induction s as [|c s IH]; intros [|k]; try reflexivity.
  cbn [JS.trimStart_from JS.string_drop]. apply IH.
Qed.

Lemma trimStart_unfold (s : string) :
  JS.trimStart s
  = match JS.space_prefix s with
    | Some w => JS.trimStart (JS.string_drop (String.length w) s)
    | None => s
    end.
Proof.
  destruct s as [|c s]; [reflexivity|].
  unfold JS.trimStart at 1. cbn [JS.trimStart_from].
  destruct (JS.space_prefix (String c s)) as [w|] eqn:H; [|done].
  apply space_prefix_Some in H as [Hw _].
  apply white_space_nonempty in Hw. destruct w as [|a w]; [done|].
  rewrite trimStart_from_drop. cbn [String.length JS.string_drop].
  by replace (S (String.length w) - 1)%nat with (String.length w) by lia.
Qed.

Lemma string_drop_length (n : nat) (s : string) :
  (String.length (JS.string_drop n s) <= String.length s)%nat.
Proof.
  revert s. induction n as [|n IH]; intros [|c s]; cbn; try lia.
  specialize (IH s). lia.
Qed.

(** [trimStart] removes a run of white space at the front, and what is
    left does not begin with white space. *)
Lemma trimStart_spec (s : string) :
  exists l, s = l +:+ JS.trimStart s /\ white l
            /\ JS.space_prefix (JS.trimStart s) = None.
Proof.
  remember (String.length s) as n eqn:Hn. revert s Hn.
  induction n as [n IH] using lt_wf_ind. intros s ->.
  rewrite trimStart_unfold.
  destruct (JS.space_prefix s) as [w|] eqn:H.
  - apply space_prefix_Some in H as [Hw Hs].
    pose proof (white_space_nonempty _ Hw) as Hne.
    destruct (IH (String.length (JS.string_drop (String.length w) s)))
      with (s := JS.string_drop (String.length w) s)
      as (l & Hl & Hwhite & Hnone); [|done|].
    + destruct w as [|a w]; [done|]. destruct s as [|c s]; [done|].
      cbn [String.length JS.string_drop].
      pose proof (string_drop_length (String.length w) s). lia.
    + exists (w +:+ l). split; [|split; [by constructor|done]].
      rewrite append_assoc, <- Hl. exact Hs.
  - exists "". by repeat split; [constructor|].
Qed.

Lemma trimStart_white (s : string) : white s -> JS.trimStart s = "".
Proof.
  induction 1 as [|w l Hw _ IH]; [done|].
  by rewrite trimStart_unfold, (space_prefix_app _ _ Hw), string_drop_app.
Qed.

(** ** [trimEnd] *)

Lemma spaces_from_drop (k : nat) (s : string) :
  (k <= String.length s)%nat ->
  JS.spaces_from k s = JS.spaces_from 0 (JS.string_drop k s).
Proof.
  revert k. induction s as [|c s IH]; intros [|k]; cbn [String.length];
    try reflexivity; [lia|].
  intros Hk. cbn [JS.spaces_from JS.string_drop]. apply IH. lia.
Qed.

Lemma spaces_from_unfold (s : string) :
  JS.spaces_from 0 s
  = match s with
    | EmptyString => true
    | String _ _ =>
        match JS.space_prefix s with
        | Some w => JS.spaces_from 0 (JS.string_drop (String.length w) s)
        | None => false
        end
    end.
Proof.
  destruct s as [|c s]; [reflexivity|]. cbn [JS.spaces_from].
  destruct (JS.space_prefix (String c s)) as [w|] eqn:H; [|done].
  apply space_prefix_Some in H as [Hw Hs].
  apply white_space_nonempty in Hw. destruct w as [|a w]; [done|].
  rewrite append_cons in Hs. injection Hs as _ Hs.
  cbn [String.length JS.string_drop].
  replace (S (String.length w) - 1)%nat with (String.length w) by lia.
  apply spaces_from_drop.
  rewrite Hs, length_append. lia.
Qed.

Lemma spaces_from_white (s : string) :
  JS.spaces_from 0 s = true <-> white s.
Proof.
  split.
  - remember (String.length s) as n eqn:Hn. revert s Hn.
    induction n as [n IH] using lt_wf_ind. intros s ->.
    rewrite spaces_from_unfold. destruct s as [|c s]; [by constructor|].
    destruct (JS.space_prefix (String c s)) as [w|] eqn:H; [|done].
    apply space_prefix_Some in H as [Hw Hs]. intros Hrest.
    rewrite Hs. constructor; [done|].
    eapply IH; [|reflexivity|done].
    pose proof (white_space_nonempty _ Hw).
    destruct w as [|a w]; [done|]. cbn [String.length JS.string_drop].
    pose proof (string_drop_length (String.length w) s). lia.
  - induction 1 as [|w l Hw _ IH]; [done|].
    rewrite spaces_from_unfold.
    pose proof (white_space_nonempty _ Hw).
    destruct w as [|a w]; [done|]. rewrite append_cons.
    rewrite <- append_cons, (space_prefix_app _ _ Hw), string_drop_app.
    exact IH.
Qed.

(** [trimEnd] removes a run of white space at the end. *)
Lemma trimEnd_spec (s : string) :
  exists r, s = JS.trimEnd s +:+ r /\ white r.
Proof.
  induction s as [|c s (r & Hs & Hr)]; [exists ""; by split; [|constructor]|].
  cbn [JS.trimEnd]. destruct (JS.spaces_from 0 (String c s)) eqn:H.
  - exists (String c s). split; [done|]. by apply spaces_from_white.
  - exists r. split; [|done]. by rewrite append_cons, <- Hs.
Qed.

(** What [trimEnd] leaves does not end with white space. *)
Lemma trimEnd_end (s w : string) :
  In w JS.white_space -> ends_with w (JS.trimEnd s) = false.
Proof.
  intros Hw. pose proof (white_space_nonempty _ Hw) as Hne.
  induction s as [|c s IH]; [by apply String.eqb_neq|].
  cbn [JS.trimEnd]. destruct (JS.spaces_from 0 (String c s)) eqn:H;
    [by apply String.eqb_neq|].
  cbn [ends_with]. rewrite IH, orb_false_r. apply String.eqb_neq. intros ->.
  destruct (trimEnd_spec s) as (r & Hs & Hr).
  assert (white (String c s)) as Hwhite.
  { rewrite Hs, <- append_cons. apply white_app; [by apply white_one|done]. }
  apply spaces_from_white in Hwhite. congruence.
Qed.

Lemma white_end (s : string) :
  white s -> s <> "" -> exists w, In w JS.white_space /\ ends_with w s = true.
Proof.
  induction 1 as [|w l Hw Hl IH]; [done|]. intros _.
  destruct l as [|a l].
  - exists w. by rewrite append_empty_r, ends_with_refl.
  - destruct IH as (w' & Hw' & Hend); [done|].
    exists w'. split; [done|]. by apply ends_with_app.
Qed.

Lemma trimEnd_clean (s : string) :
  (forall w, In w JS.white_space -> ends_with w s = false) ->
  JS.trimEnd s = s.
Proof.
  induction s as [|c s IH]; [done|]. intros Hs. cbn [JS.trimEnd].
  destruct (JS.spaces_from 0 (String c s)) eqn:H.
  - apply spaces_from_white in H.
    destruct (white_end _ H) as (w & Hw & Hend); [done|].
    by rewrite (Hs w Hw) in Hend.
  - rewrite IH; [done|]. intros w Hw. specialize (Hs w Hw).
    cbn [ends_with] in Hs. by apply orb_false_iff in Hs as [_ ?].
Qed.

(** ** [trim] *)

(** [trim] removes white space at both ends and nothing else. *)
Lemma trim_spec (s : string) :
  exists l r, s = l +:+ JS.trim s +:+ r /\ white l /\ white r
              /\ trimmed (JS.trim s).
Proof.
  destruct (trimStart_spec s) as (l & Hs & Hl & Hfirst).
  destruct (trimEnd_spec (JS.trimStart s)) as (r & Hs' & Hr).
  exists l, r. unfold JS.trim. split; [by rewrite <- Hs', <- Hs|].
  split; [done|]. split; [done|]. intros w Hw. split.
  - destruct (JS.starts_with w (JS.trimEnd (JS.trimStart s))) eqn:H; [|done].
    apply (starts_with_weaken _ _ r) in H. rewrite <- Hs' in H.
    by rewrite (space_prefix_None _ w Hfirst Hw) in H.
  - by apply trimEnd_end.
Qed.

(** [trim] leaves a string with no white space at its ends as it is. *)
Lemma trim_trimmed (s : string) : trimmed s -> JS.trim s = s.
Proof.
  intros Hs. unfold JS.trim.
  assert (JS.trimStart s = s) as ->.
  { rewrite trimStart_unfold.
    destruct (JS.space_prefix s) as [w|] eqn:H; [|done].
    apply find_some in H as [Hw H]. destruct (Hs w Hw). congruence. }
  apply trimEnd_clean. intros w Hw. by destruct (Hs w Hw).
Qed.

(** [trim] gives the empty string on white space only, and only there. *)
Lemma trim_empty_iff (s : string) : JS.trim s = "" <-> white s.
Proof.
  split.
  - intros Hs. destruct (trim_spec s) as (l & r & Heq & Hl & Hr & _).
    rewrite Hs, append_empty_l in Heq. rewrite Heq. by apply white_app.
  - intros Hs. unfold JS.trim. by rewrite (trimStart_white _ Hs).
Qed.

Lemma occurs_trim (c : ascii) (s : string) :
  occurs c s = false -> occurs c (JS.trim s) = false.
Proof.
  destruct (trim_spec s) as (l & r & Hs & _). intros H.
  rewrite Hs, !occurs_app in H.
  by apply orb_false_iff in H as [_ [H _]%orb_false_iff].
Qed.

(** ** The disabled-tool list *)

(** A check by evaluation that a string has no white space at its ends. *)
Lemma trimmed_check (s : string) :
  forallb (fun w => negb (JS.starts_with w s) && negb (ends_with w s))
          JS.white_space = true ->
  trimmed s.
Proof.
  rewrite forallb_forall. intros H w Hw.
  apply H, andb_true_iff in Hw as [H1 H2].
  by rewrite !negb_true_iff in H1, H2.
Qed.

(** Every name of the parsed list is non-empty, has no white space at
    either end and contains no comma. *)
Lemma split_tools_names (raw : string) :
  Forall (fun name => name <> "" /\ trimmed name /\ occurs "," name = false)
    (split_tools raw).
Proof.
  unfold split_tools. apply List.Forall_forall. intros name Hin.
  apply List.filter_In in Hin as [Hin Hne].
  apply List.in_map_iff in Hin as (piece & <- & Hpiece).
  split; [by apply String.eqb_neq, negb_true_iff|].
  split.
  - by destruct (trim_spec piece) as (_ & _ & _ & _ & _ & ?).
  - apply occurs_trim.
    pose proof (split_pieces_free "," raw) as H.
    rewrite List.Forall_forall in H. by apply H.
Qed.

(** C7: the disabled-tool list is obtained from the raw string by cutting
    it at every comma, trimming the white space around each piece, and
    dropping the pieces left empty, in the order of the input and keeping
    repetitions; with no raw value supplied the list is empty.  Hence
    [" a, b ,,c "] gives [["a"; "b"; "c"]].  White space is every code
    point [trim] removes, each of which is trimmed around a piece, and no
    other: a zero width space (U+200B) or a next line control (U+0085)
    stays. *)
Theorem disabled_tools_parsing
    (e : EnvArgs.t) (env : gmap string string) (raw piece : string) :
  Config.disabledTools (configuration e env)
  = match first_supplied [EnvArgs.disabledTools e; env !! "DISABLED_TOOLS";
                          env !! "DISABLED_COMMANDS"] with
    | Some chosen => split_tools chosen
    | None => []
    end
  /\ (exists pieces : list string,
        JS.join "," pieces = raw
        /\ Forall (fun p => occurs "," p = false) pieces
        /\ split_tools raw
           = List.filter (fun name => negb (name =? ""))
               (List.map JS.trim pieces))
  /\ (exists l r : string,
        piece = l +:+ JS.trim piece +:+ r
        /\ white l /\ white r /\ trimmed (JS.trim piece))
  /\ Forall (fun name => name <> "" /\ trimmed name /\ occurs "," name = false)
       (Config.disabledTools (configuration e env))
  /\ split_tools " a, b ,,c " = ["a"; "b"; "c"]
  /\ Config.disabledTools
       (configuration (envArgs []) {["DISABLED_TOOLS" := " a, b ,,c "]})
     = ["a"; "b"; "c"]
  /\ Config.disabledTools
       (configuration (envArgs ["--env"; "DISABLED_TOOLS= a, b ,,c "]) ∅)
     = ["a"; "b"; "c"]
  /\ split_tools "b,a ,b, a" = ["b"; "a"; "b"; "a"]
  /\ split_tools " , ,," = []
  /\ Config.disabledTools (configuration (envArgs []) ∅) = []
  /\ Forall (fun w =>
       split_tools (w +:+ "a" +:+ w +:+ "," +:+ w +:+ "," +:+ w +:+ "b c" +:+ w)
       = ["a"; "b c"]) JS.white_space
  /\ JS.trim (JS.bytes [226; 128; 139] +:+ "a" +:+ JS.bytes [194; 133])
     = JS.bytes [226; 128; 139] +:+ "a" +:+ JS.bytes [194; 133].
Proof.
  destruct (precedence_source_lists e env) as (_ & Htools). cbn zeta in Htools.
  assert (Config.disabledTools (configuration e env)
          = match first_supplied [EnvArgs.disabledTools e; env !! "DISABLED_TOOLS";
                                  env !! "DISABLED_COMMANDS"] with
            | Some chosen => split_tools chosen
            | None => []
            end) as Heq.
  { rewrite Htools. by destruct (first_supplied _). }
  split; [exact Heq|].
  split.
  { exists (JS.split "," raw). split; [apply join_split|].
    split; [apply split_pieces_free|reflexivity]. }
  split; [apply trim_spec|].
  split.
  { rewrite Heq. destruct (first_supplied _); [apply split_tools_names|constructor]. }
  do 6 (split; [vm_compute; reflexivity|]).
  split; [|vm_compute; reflexivity].
  unfold JS.white_space.
  repeat (constructor; [vm_compute; reflexivity|]). constructor.
Qed.

(** ** [toUpperCase] *)

(** What the table's entries have in common: a code point above U+007F,
    so all its characters are outside ASCII, and a non-empty mapping. *)
Lemma upper_table_entry (e : string * string) :
  In e JS.upper_table ->
  e.1 <> "" /\ e.2 <> "" /\ all_chars (fun c => negb (JS.is_ascii c)) e.1 = true.
Proof.
  assert (forallb (fun e => negb (e.1 =? "") && negb (e.2 =? "")
            && all_chars (fun c => negb (JS.is_ascii c)) e.1)
            JS.upper_table = true) as H by (vm_compute; reflexivity).
  rewrite forallb_forall in H. intros He. apply H in He.
  apply andb_true_iff in He as [[H1 H2]%andb_true_iff H3].
  by rewrite !negb_true_iff, !String.eqb_neq in H1, H2.
Qed.

Lemma toUpperCase_from_drop (k : nat) (s : string) :
  JS.toUpperCase_from k s = JS.toUpperCase (JS.string_drop k s).
Proof.
  revert k. induction s as [|c s IH]; intros [|k]; try reflexivity.
  cbn [JS.toUpperCase_from JS.string_drop]. apply IH.
Qed.

Lemma toUpperCase_unfold (c : ascii) (s : string) :
  JS.toUpperCase (String c s)
  = if JS.is_ascii c then String (JS.toUpperCase_char c) (JS.toUpperCase s)
    else match JS.upper_entry (String c s) with
         | Some e =>
             e.2 +:+ JS.toUpperCase (JS.string_drop (String.length e.1) (String c s))
         | None => String c (JS.toUpperCase s)
         end.
Proof.
  unfold JS.toUpperCase at 1. cbn [JS.toUpperCase_from].
  destruct (JS.is_ascii c); [done|].
  destruct (JS.upper_entry (String c s)) as [[k v]|] eqn:H; [|done].
  apply find_some in H as [(Hk & _ & _)%upper_table_entry _].
  cbn [fst snd] in *. destruct k as [|a k]; [done|].
  rewrite toUpperCase_from_drop. cbn [String.length JS.string_drop].
  by replace (S (String.length k) - 1)%nat with (String.length k) by lia.
Qed.

Lemma upper_entry_Some (s : string) (e : string * string) :
  JS.upper_entry s = Some e ->
  In e JS.upper_table /\ s = e.1 +:+ JS.string_drop (String.length e.1) s.
Proof.
  intros [He Hs]%find_some. split; [done|]. by apply starts_with_spec.
Qed.

Lemma same_letter_ascii (a b : ascii) :
  same_letter a b = true ->
  JS.is_ascii b = JS.is_ascii a /\ (JS.is_ascii a = false -> a = b).
Proof.
  unfold same_letter, is_lower, JS.is_ascii. rewrite ascii_eqb_N.
  intros H. split.
  - apply eq_true_iff_eq. rewrite !N.ltb_lt.
    repeat (apply orb_true_iff in H as [H|H]);
      rewrite ?andb_true_iff, ?N.eqb_eq, ?N.leb_le in H; lia.
  - rewrite N.ltb_ge. intros Ha.
    rewrite <- (ascii_N_embedding a), <- (ascii_N_embedding b). f_equal.
    pose proof (N_ascii_bounded b).
    repeat (apply orb_true_iff in H as [H|H]);
      rewrite ?andb_true_iff, ?N.eqb_eq, ?N.leb_le in H; lia.
Qed.

Lemma eq_ignore_case_starts (k s t : string) :
  all_chars (fun c => negb (JS.is_ascii c)) k = true ->
  eq_ignore_case s t = true ->
  JS.starts_with k s = JS.starts_with k t.
Proof.
  revert s t. induction k as [|x k IH]; intros s t; [done|].
  cbn [all_chars]. intros [Hx%negb_true_iff Hk]%andb_true_iff.
  destruct s as [|a s], t as [|b t]; try done.
  cbn [eq_ignore_case JS.starts_with].
  intros [Hab Hst]%andb_true_iff. rewrite (IH _ _ Hk Hst).
  destruct (same_letter_ascii _ _ Hab) as [Hb Heq].
  destruct (JS.is_ascii a) eqn:Ha.
  - destruct (Ascii.eqb_spec x a) as [->|_]; [congruence|].
    destruct (Ascii.eqb_spec x b) as [->|_]; [congruence|done].
  - by rewrite (Heq eq_refl).
Qed.

Lemma eq_ignore_case_drop (n : nat) (s t : string) :
  eq_ignore_case s t = true ->
  eq_ignore_case (JS.string_drop n s) (JS.string_drop n t) = true.
Proof.
  revert s t. induction n as [|n IH]; intros [|a s] [|b t]; try done.
  cbn [eq_ignore_case JS.string_drop]. intros [_ H]%andb_true_iff.
  by apply IH.
Qed.

Lemma find_agree {A} (f g : A -> bool) (l : list A) :
  (forall x, In x l -> f x = g x) -> List.find f l = List.find g l.
Proof.
  induction l as [|x l IH]; [done|]. intros H. cbn [List.find].
  rewrite (H x) by (by left). destruct (g x); [done|].
  apply IH. intros y Hy. apply H. by right.
Qed.

Lemma upper_entry_agree (s t : string) :
  eq_ignore_case s t = true -> JS.upper_entry s = JS.upper_entry t.
Proof.
  intros H. apply find_agree. intros e (_ & _ & He)%upper_table_entry.
  by apply eq_ignore_case_starts.
Qed.

(** Strings that differ only in the case of ASCII letters have the same
    upper-case form. *)
Lemma toUpperCase_ignores_case (s t : string) :
  eq_ignore_case s t = true -> JS.toUpperCase s = JS.toUpperCase t.
Proof.
  remember (String.length s) as n eqn:Hn. revert s t Hn.
  induction n as [n IH] using lt_wf_ind. intros s t -> Hst.
  destruct s as [|a s], t as [|b t]; try done.
  pose proof Hst as [Hab Hst']%andb_true_iff.
  destruct (same_letter_ascii _ _ Hab) as [Hb Heq].
  rewrite !toUpperCase_unfold, Hb, <- (upper_entry_agree _ _ Hst).
  destruct (JS.is_ascii a) eqn:Ha.
  - rewrite same_letter_toUpperCase in Hab. apply Ascii.eqb_eq in Hab.
    rewrite Hab. f_equal. eapply IH; [|reflexivity|done]. cbn. lia.
  - destruct (JS.upper_entry (String a s)) as [e|] eqn:He.
    + f_equal. apply upper_entry_Some in He as [(Hk & _)%upper_table_entry _].
      destruct (e.1) as [|x k]; [done|]. cbn [String.length JS.string_drop].
      eapply IH; [|reflexivity|by apply eq_ignore_case_drop].
      pose proof (string_drop_length (String.length k) s). cbn. lia.
    + rewrite (Heq eq_refl). f_equal.
      eapply IH; [|reflexivity|done]. cbn. lia.
Qed.

Lemma upper_letter (n : ascii) :
  is_upper n = true ->
  JS.is_ascii n = true /\ JS.toUpperCase_char n = n
  /\ JS.is_ascii (lower_of n) = true /\ JS.toUpperCase_char (lower_of n) = n.
Proof.
  destruct n as [[] [] [] [] [] [] [] []]; intros H; vm_compute in H;
    try discriminate H; by vm_compute.
Qed.

Lemma upper_source (c n : ascii) :
  JS.toUpperCase_char c = n -> is_upper n = true -> c = n \/ c = lower_of n.
Proof.
  intros <-.
  destruct c as [[] [] [] [] [] [] [] []]; intros H; vm_compute in H;
    try discriminate H; (by left) || (by right).
Qed.

Lemma toUpperCase_empty (s : string) : JS.toUpperCase s = "" -> s = "".
Proof.
  destruct s as [|c s]; [done|]. rewrite toUpperCase_unfold.
  destruct (JS.is_ascii c); [done|].
  destruct (JS.upper_entry (String c s)) as [e|] eqn:He; [|done].
  apply upper_entry_Some in He as [(_ & Hv & _)%upper_table_entry _].
  by destruct (e.2).
Qed.

Lemma toUpperCase_dotless_i (r : string) :
  JS.toUpperCase ("ı" +:+ r) = String "I" (JS.toUpperCase r).
Proof.
  change ("ı" +:+ r) with (String "196" (String "177" r)).
  rewrite toUpperCase_unfold.
  assert (JS.upper_entry (String "196" (String "177" r)) = Some ("ı", "I"))
    as -> by (vm_compute; reflexivity).
  reflexivity.
Qed.

Lemma toUpperCase_long_s (r : string) :
  JS.toUpperCase ("ſ" +:+ r) = String "S" (JS.toUpperCase r).
Proof.
  change ("ſ" +:+ r) with (String "197" (String "191" r)).
  rewrite toUpperCase_unfold.
  assert (JS.upper_entry (String "197" (String "191" r)) = Some ("ſ", "S"))
    as -> by (vm_compute; reflexivity).
  reflexivity.
Qed.

(** The only code points beyond ASCII that upper-case to a single ASCII
    letter are the spellings listed for that letter. *)
Lemma upper_heads_single (e : string * string) (n : ascii) :
  In e upper_heads -> e.2 = String n "" -> In e.1 (spellings n).
Proof.
  assert (forallb (fun e =>
            match e.2 with
            | String n EmptyString => existsb (String.eqb e.1) (spellings n)
            | _ => true
            end) upper_heads = true) as H by (vm_compute; reflexivity).
  rewrite forallb_forall in H. intros He Hv. apply H in He.
  rewrite Hv in He. apply existsb_exists in He as (w & Hw & ->%String.eqb_eq).
  exact Hw.
Qed.

Lemma plain_name_cons (n : ascii) (t : string) :
  plain_name (String n t) = true ->
  is_upper n = true /\ plain_name t = true
  /\ (forall e, In e upper_heads -> JS.starts_with e.2 (String n t) = true ->
                e.2 = String n "").
Proof.
  unfold plain_name. cbn [all_chars suffixes forallb].
  intros [[Hn Ht]%andb_true_iff [Hhead Hrest]%andb_true_iff]%andb_true_iff.
  split; [done|]. split; [by rewrite Ht, Hrest|].
  intros e He Hstart. rewrite forallb_forall in Hhead.
  specialize (Hhead e He). rewrite Hstart in Hhead. cbn [implb] in Hhead.
  apply Nat.eqb_eq in Hhead.
  destruct (e.2) as [|v0 [|v1 v]]; try done.
  cbn [JS.starts_with] in Hstart.
  by apply andb_true_iff in Hstart as [->%Ascii.eqb_eq _].
Qed.

(** A plain name is the upper-case form of exactly the strings that spell
    it. *)
Lemma upper_spells (name : string) :
  plain_name name = true ->
  forall s, JS.toUpperCase s = name <-> spells s name = true.
Proof.
  induction name as [|n t IH]; intros Hname s.
  { cbn [spells]. rewrite String.eqb_eq. split.
    - apply toUpperCase_empty.
    - by intros ->. }
  apply plain_name_cons in Hname as (Hn & Ht & Hheads).
  destruct (upper_letter n Hn) as (Hascii & Hup & Hlascii & Hlup).
  cbn [spells]. rewrite existsb_exists. split.
  - destruct s as [|c s]; [done|]. rewrite toUpperCase_unfold.
    destruct (JS.is_ascii c) eqn:Hc.
    + intros [= Hcn Hs].
      exists (String c ""). split; [|split_and?].
      * destruct (upper_source _ _ Hcn Hn) as [->| ->];
          unfold spellings; cbn [In app]; by auto.
      * apply andb_true_iff. cbn [JS.starts_with String.length JS.string_drop].
        rewrite Ascii.eqb_refl. split; [done|]. by apply IH.
    + destruct (JS.upper_entry (String c s)) as [e|] eqn:He.
      * intros H. pose proof He as [Htable Hs]%upper_entry_Some.
        destruct (upper_table_entry _ Htable) as (_ & Hv & _).
        assert (JS.starts_with e.2 (String n t) = true) as Hstart
          by (rewrite <- H; apply starts_with_app).
        assert (In e upper_heads) as Hhead.
        { apply filter_In. split; [done|].
          destruct (e.2) as [|v0 v]; [done|]. cbn [JS.starts_with] in Hstart.
          apply andb_true_iff in Hstart as [->%Ascii.eqb_eq _]. done. }
        pose proof (Hheads e Hhead Hstart) as Hval.
        rewrite Hval in H. injection H as H.
        exists (e.1). split; [by eapply upper_heads_single|].
        apply andb_true_iff. split.
        -- by apply find_some in He as [_ ?].
        -- by apply IH.
      * intros [= -> _]. congruence.
  - intros (w & Hw & [Hstart Hrest]%andb_true_iff).
    apply starts_with_spec in Hstart. apply (IH Ht) in Hrest.
    revert Hstart Hrest. generalize (JS.string_drop (String.length w) s).
    intros r -> Hr. unfold spellings in Hw.
    apply in_app_or in Hw as [Hw|Hw]; [|apply in_app_or in Hw as [Hw|Hw]].
    + destruct Hw as [<-|[<-|[]]]; rewrite append_cons, append_empty_l,
        toUpperCase_unfold; [rewrite Hascii, Hup|rewrite Hlascii, Hlup];
        by rewrite Hr.
    + destruct (Ascii.eqb_spec n "I") as [->|_]; [|done].
      destruct Hw as [<-|[]]. by rewrite toUpperCase_dotless_i, Hr.
    + destruct (Ascii.eqb_spec n "S") as [->|_]; [|done].
      destruct Hw as [<-|[]]. by rewrite toUpperCase_long_s, Hr.
Qed.

Lemma upper_eqb_spells (name s : string) :
  plain_name name = true ->
  (JS.toUpperCase s =? name) = spells s name.
Proof.
  intros Hname. apply eq_true_iff_eq. rewrite String.eqb_eq.
  by apply upper_spells.
Qed.

Lemma level_names_plain :
  plain_name "TRACE" = true /\ plain_name "DEBUG" = true
  /\ plain_name "INFO" = true /\ plain_name "WARN" = true
  /\ plain_name "ERROR" = true.
Proof. repeat split; vm_compute; reflexivity. Qed.

(** ** Log levels *)

Lemma parseLogLevel_congr (s t : string) :
  eq_ignore_case s t = true ->
  parseLogLevel (Some s) = parseLogLevel (Some t).
Proof.
  intros H. pose proof (toUpperCase_ignores_case _ _ H) as Hup.
  destruct s as [|a s], t as [|b t]; try done.
  unfold parseLogLevel. cbn [JS.truthy String.eqb negb]. by rewrite Hup.
Qed.



(** ** More on the tokenizer *)

Lemma for_loop_suffix (fuel : nat) (args : list string) :
  forall (i : nat) (e : EnvArgs.t),
    (length args - i <= fuel)%nat ->
    for_loop fuel args i e = Finished (envArgs_loop (drop i args) e).
Proof.
  induction fuel as [|fuel IH]; intros i e Hfuel.
  - cbn [for_loop].
    destruct (Nat.ltb_spec i (length args)) as [Hi|Hi]; [lia|].
    by rewrite drop_ge.
  - cbn [for_loop].
    destruct (Nat.ltb_spec i (length args)) as [Hi|Hi];
      [|by rewrite drop_ge].
    destruct (lookup_lt_is_Some_2 args i Hi) as [a Ha].
    rewrite Ha, (drop_S _ _ _ Ha). cbn [JS.strict_eq envArgs_loop].
    destruct (a =? "--env"); cbn [andb].
    + destruct (Nat.ltb_spec (i + 1) (length args)) as [Hi'|Hi'].
      * destruct (lookup_lt_is_Some_2 args (i + 1) Hi') as [token Htoken].
        rewrite Htoken. replace (S i) with (i + 1)%nat by lia.
        rewrite (drop_S _ _ _ Htoken).
        rewrite IH by lia. by replace (S (i + 1)) with (i + 1 + 1)%nat by lia.
      * rewrite IH by lia.
        replace (S i) with (i + 1)%nat by lia. by rewrite drop_ge.
    + rewrite IH by lia. by replace (S i) with (i + 1)%nat by lia.
Qed.

(** X1: the loop written on the index ends normally within [args.length]
    iterations, whatever the arguments: it never reads [args[i + 1]] past
    the end, and its result is the one of the loop read on suffixes. *)
Theorem for_loop_finishes (args : list string) (e : EnvArgs.t) :
  for_loop (length args) args 0 e = Finished (envArgs_loop args e).
Proof.
  rewrite for_loop_suffix by lia. by rewrite drop_0.
Qed.

(** X2: a [KEY=value] token whose value has no [=] stores exactly that value
    in the field of its key and leaves the other fields as they are; the
    two legacy document names and the legacy tool name write the field of
    the primary name. *)
Theorem assign_stores_value (e : EnvArgs.t) (v : string) :
  occurs "=" v = false ->
  assign e ("CLICKUP_API_KEY=" +:+ v) = EnvArgs.set_clickupApiKey (Some v) e
  /\ assign e ("CLICKUP_TEAM_ID=" +:+ v) = EnvArgs.set_clickupTeamId (Some v) e
  /\ assign e ("DOCUMENT_SUPPORT=" +:+ v) = EnvArgs.set_documentSupport (Some v) e
  /\ assign e ("DOCUMENT_MODEL=" +:+ v) = EnvArgs.set_documentSupport (Some v) e
  /\ assign e ("DOCUMENT_MODULE=" +:+ v) = EnvArgs.set_documentSupport (Some v) e
  /\ assign e ("LOG_LEVEL=" +:+ v) = EnvArgs.set_logLevel (Some v) e
  /\ assign e ("DISABLED_TOOLS=" +:+ v) = EnvArgs.set_disabledTools (Some v) e
  /\ assign e ("DISABLED_COMMANDS=" +:+ v) = EnvArgs.set_disabledTools (Some v) e
  /\ assign e ("ENABLE_SSE=" +:+ v) = EnvArgs.set_enableSSE (Some v) e
  /\ assign e ("ENABLE_OAUTH=" +:+ v) = EnvArgs.set_enableOAuth (Some v) e
  /\ assign e ("PORT=" +:+ v) = EnvArgs.set_port (Some v) e.
Proof.
  intros Hv.
  assert (forall k : string, occurs "=" k = false ->
            key_value (k +:+ "=" +:+ v) = (Some k, Some v)) as Hkv
    by (intros k Hk; by apply key_value_pair).
  repeat split;
    match goal with
    | |- assign _ (?t +:+ _) = _ =>
        let k := eval vm_compute in (default "" (JS.split "=" t !! 0%nat)) in
        change (t +:+ v) with (k +:+ "=" +:+ v);
        unfold assign; rewrite (Hkv k) by reflexivity; reflexivity
    end.
Qed.

Lemma assign_stores_value_witness :
  assign EnvArgs.empty ("PORT=" +:+ "8080")
  = EnvArgs.set_port (Some "8080") EnvArgs.empty.
Proof.
  apply (assign_stores_value EnvArgs.empty "8080"). reflexivity.
Defined.

(** X3: a token whose key is none of the eleven recognised names changes
    nothing. *)
Theorem assign_ignores_unknown_key (e : EnvArgs.t) (token : string) :
  names_alias recognised_keys token = false ->
  assign e token = e.
Proof.
  unfold names_alias, recognised_keys, assign.
  destruct (key_value token) as [key value]. cbn [fst existsb].
  rewrite !orb_false_iff. intros (?&?&?&?&?&?&?&?&?&?&?&_).
  unfold when_key. by repeat match goal with H : _ = false |- _ => rewrite H; clear H end.
Qed.

Lemma assign_ignores_unknown_key_witness :
  assign (EnvArgs.set_port (Some "1") EnvArgs.empty) "CLICKUP_API_TOKEN=x"
  = EnvArgs.set_port (Some "1") EnvArgs.empty.
Proof.
  apply (assign_ignores_unknown_key _ "CLICKUP_API_TOKEN=x"). reflexivity.
Defined.

Lemma trailing_marker_step (args : list string) :
  (forall e, envArgs_loop (args ++ ["--env"]) e = envArgs_loop args e)
  /\ (forall a e,
        envArgs_loop ((a :: args) ++ ["--env"]) e = envArgs_loop (a :: args) e).
Proof.
  induction args as [|token rest [IH1 IH2]].
  - split; [done|]. intros a e. cbn. by destruct (a =? "--env").
  - split; [exact (IH2 token)|].
    intros a e. cbn [app envArgs_loop].
    destruct (a =? "--env"); [apply IH1 | apply (IH2 token)].
Qed.

(** X4: a [--env] at the very end of the arguments never has an effect: either
    it is a marker with nothing behind it, or it is the token of the marker
    before it, and its key is not a recognised one. *)
Theorem trailing_marker_ignored
    (args : list string) (e : EnvArgs.t) (env : gmap string string) :
  envArgs_loop (args ++ ["--env"]) e = envArgs_loop args e
  /\ resolve (args ++ ["--env"]) env = resolve args env.
Proof.
  split; [apply trailing_marker_step|].
  unfold resolve, envArgs. by rewrite (proj1 (trailing_marker_step args)).
Qed.

(** X5: arguments in front that contain no [--env] are stepped over. *)
Theorem plain_arguments_ignored
    (plain rest : list string) (e : EnvArgs.t) :
  Forall (fun a => a <> "--env") plain ->
  envArgs_loop (plain ++ rest) e = envArgs_loop rest e.
Proof.
  induction 1 as [|a plain Ha _ IH]; [done|].
  cbn [app envArgs_loop]. apply String.eqb_neq in Ha. by rewrite Ha.
Qed.

Lemma plain_arguments_ignored_witness :
  envArgs_loop (["--port"; "80"] ++ ["--env"; "PORT=1"]) EnvArgs.empty
  = envArgs_loop ["--env"; "PORT=1"] EnvArgs.empty.
Proof.
  apply (plain_arguments_ignored ["--port"; "80"]).
  repeat constructor; discriminate.
Defined.

(** X6: a run of [--env NAME=VALUE] pairs in front is read pair by pair: the
    loop goes on behind it with the assignments of its tokens done, in
    order, whatever the names and the values are. *)
Theorem pairs_then_rest
    (pairs : list (string * string)) (rest : list string) (e : EnvArgs.t) :
  envArgs_loop (as_cli pairs ++ rest) e
  = envArgs_loop rest (fold_left assign (pair_token <$> pairs) e)
  /\ env_tokens (as_cli pairs ++ rest)
     = ((pair_token <$> pairs) ++ env_tokens rest)%list.
Proof.
  split.
  - revert e. induction pairs as [|p pairs IH]; intros e; [done|].
    cbn [as_cli flat_map app envArgs_loop fmap list_fmap fold_left].
    cbn [String.eqb Ascii.eqb Bool.eqb]. cbn match. apply IH.
  - induction pairs as [|p pairs IH]; [done|].
    cbn [as_cli flat_map app env_tokens fmap list_fmap].
    cbn [String.eqb Ascii.eqb Bool.eqb]. cbn match.
    by rewrite <- IH.
Qed.

(** The effect of one assignment on a field written under a single name. *)
Ltac assign_single_name proj name :=
  unfold assign, names_alias;
  destruct (key_value _) as [key value]; cbn [fst snd existsb];
  rewrite ?(when_key_other proj) by reflexivity;
  unfold when_key at 1;
  destruct (JS.strict_eq key name); cbn;
  rewrite ?(when_key_other proj) by reflexivity;
  reflexivity.

Lemma assign_clickupApiKey (e : EnvArgs.t) (token : string) :
  EnvArgs.clickupApiKey (assign e token)
  = if names_alias ["CLICKUP_API_KEY"] token then (key_value token).2
    else EnvArgs.clickupApiKey e.
Proof. assign_single_name EnvArgs.clickupApiKey "CLICKUP_API_KEY". Qed.

Lemma assign_clickupTeamId (e : EnvArgs.t) (token : string) :
  EnvArgs.clickupTeamId (assign e token)
  = if names_alias ["CLICKUP_TEAM_ID"] token then (key_value token).2
    else EnvArgs.clickupTeamId e.
Proof. assign_single_name EnvArgs.clickupTeamId "CLICKUP_TEAM_ID". Qed.

Lemma assign_logLevel (e : EnvArgs.t) (token : string) :
  EnvArgs.logLevel (assign e token)
  = if names_alias ["LOG_LEVEL"] token then (key_value token).2
    else EnvArgs.logLevel e.
Proof. assign_single_name EnvArgs.logLevel "LOG_LEVEL". Qed.

Lemma assign_enableSSE (e : EnvArgs.t) (token : string) :
  EnvArgs.enableSSE (assign e token)
  = if names_alias ["ENABLE_SSE"] token then (key_value token).2
    else EnvArgs.enableSSE e.
Proof. assign_single_name EnvArgs.enableSSE "ENABLE_SSE". Qed.

Lemma assign_enableOAuth (e : EnvArgs.t) (token : string) :
  EnvArgs.enableOAuth (assign e token)
  = if names_alias ["ENABLE_OAUTH"] token then (key_value token).2
    else EnvArgs.enableOAuth e.
Proof. assign_single_name EnvArgs.enableOAuth "ENABLE_OAUTH". Qed.

Lemma assign_port (e : EnvArgs.t) (token : string) :
  EnvArgs.port (assign e token)
  = if names_alias ["PORT"] token then (key_value token).2
    else EnvArgs.port e.
Proof. assign_single_name EnvArgs.port "PORT". Qed.

(** X7: when a field is named by several [--env] pairs the last one, in
    argument order, decides: each field written under a single name holds
    the value of the last token with that key, and [undefined] when that
    token has no [=] or when no token has the key. *)
Theorem last_pair_wins (args : list string) :
  EnvArgs.clickupApiKey (envArgs args)
  = last_written ["CLICKUP_API_KEY"] (env_tokens args)
  /\ EnvArgs.clickupTeamId (envArgs args)
     = last_written ["CLICKUP_TEAM_ID"] (env_tokens args)
  /\ EnvArgs.logLevel (envArgs args)
     = last_written ["LOG_LEVEL"] (env_tokens args)
  /\ EnvArgs.enableSSE (envArgs args)
     = last_written ["ENABLE_SSE"] (env_tokens args)
  /\ EnvArgs.enableOAuth (envArgs args)
     = last_written ["ENABLE_OAUTH"] (env_tokens args)
  /\ EnvArgs.port (envArgs args)
     = last_written ["PORT"] (env_tokens args).
Proof.
  split; [by apply (envArgs_proj _ _ assign_clickupApiKey)|].
  split; [by apply (envArgs_proj _ _ assign_clickupTeamId)|].
  split; [by apply (envArgs_proj _ _ assign_logLevel)|].
  split; [by apply (envArgs_proj _ _ assign_enableSSE)|].
  split; [by apply (envArgs_proj _ _ assign_enableOAuth)|].
  by apply (envArgs_proj _ _ assign_port).
Qed.

(** ** More on the disabled-tool list *)

(** Cutting at a separator distributes over a separator in the middle. *)
Lemma split_app (sep : ascii) (a b : string) :
  JS.split sep (a +:+ String sep b) = (JS.split sep a ++ JS.split sep b)%list.
Proof.
  induction a as [|c a IH].
  - rewrite append_empty_l. cbn [JS.split]. by rewrite Ascii.eqb_refl.
  - rewrite append_cons. cbn [JS.split]. rewrite IH.
    destruct (Ascii.eqb c sep); [done|].
    destruct (JS.split sep a) eqn:Ha; [by destruct (split_nonempty sep a)|done].
Qed.

(** Cutting undoes joining, for a non-empty list of separator-free pieces. *)
Lemma split_of_join (sep : ascii) (l : list string) :
  Forall (fun piece => occurs sep piece = false) l -> l <> [] ->
  JS.split sep (JS.join (String sep "") l) = l.
Proof.
  induction 1 as [|x l Hx Hl IH]; [done|]. intros _.
  destruct l as [|y l].
  - cbn [JS.join]. by apply split_free.
  - rewrite join_cons.
    change (x +:+ String sep "" +:+ JS.join (String sep "") (y :: l))
      with (x +:+ String sep (JS.join (String sep "") (y :: l))).
    rewrite (split_app_sep _ _ _ Hx). by rewrite IH.
Qed.

(** X8: the list parsed from two raw strings joined by a comma is the list of
    the first followed by the list of the second: entries are parsed
    independently of their neighbours. *)
Theorem split_tools_app (a b : string) :
  split_tools (a +:+ "," +:+ b) = (split_tools a ++ split_tools b)%list.
Proof.
  unfold split_tools.
  change (a +:+ "," +:+ b) with (a +:+ String "," b).
  by rewrite split_app, List.map_app, List.filter_app.
Qed.

Lemma split_tools_join_names (names : list string) :
  Forall tool_name names ->
  split_tools (JS.join "," names) = names.
Proof.
  intros Hnames. destruct names as [|name names]; [reflexivity|].
  unfold split_tools. rewrite split_of_join; [|
    by eapply Forall_impl; [exact Hnames | intros ? (_ & _ & ?)] | done].
  induction Hnames as [|x l (Hne & Htrim & _) _ IH]; [done|].
  cbn [List.map List.filter]. rewrite (trim_trimmed _ Htrim).
  apply String.eqb_neq in Hne. rewrite Hne. cbn [negb]. by rewrite IH.
Qed.

(** X9: writing well-formed tool names with commas between them and parsing
    the result gives the names back, in order and with repetitions. *)
Theorem split_tools_of_join (names : list string) :
  Forall tool_name names ->
  split_tools (JS.join "," names) = names.
Proof. apply split_tools_join_names. Qed.

Lemma split_tools_of_join_witness :
  split_tools (JS.join "," ["create_task"; "delete_task"; "create_task"])
  = ["create_task"; "delete_task"; "create_task"].
Proof.
  apply (split_tools_of_join ["create_task"; "delete_task"; "create_task"]).
  repeat (apply List.Forall_cons;
    [unfold tool_name; split_and!;
       [discriminate | apply trimmed_check; vm_compute; reflexivity
        | reflexivity] |]).
  apply List.Forall_nil.
Defined.

(** X10: parsing is stable: the parsed list, written back with commas and
    parsed again, is unchanged, for every raw string. *)
Theorem split_tools_stable (raw : string) :
  split_tools (JS.join "," (split_tools raw)) = split_tools raw.
Proof.
  apply split_tools_join_names. exact (split_tools_names raw).
Qed.

(** X11: an entry between commas is dropped exactly when it consists of white
    space only; any other entry is kept as its trimmed text. *)
Theorem split_tools_entry (entry : string) :
  occurs "," entry = false ->
  (white entry -> split_tools entry = [])
  /\ (~ white entry -> split_tools entry = [JS.trim entry]).
Proof.
  intros Hentry. unfold split_tools. rewrite (split_free _ _ Hentry).
  cbn [List.map List.filter]. split.
  - intros ->%trim_empty_iff. reflexivity.
  - intros Hwhite.
    destruct (String.eqb_spec (JS.trim entry) "") as [Hempty|_]; [|done].
    by apply trim_empty_iff in Hempty.
Qed.

Lemma split_tools_entry_witness :
  (white "  get_tasks " -> split_tools "  get_tasks " = [])
  /\ (~ white "  get_tasks "
      -> split_tools "  get_tasks " = [JS.trim "  get_tasks "]).
Proof.
  apply (split_tools_entry "  get_tasks "). reflexivity.
Defined.

(** ** More on log levels *)

(** X12: two spellings that differ only in the case of their letters parse to
    the same level. *)
Theorem parseLogLevel_same_letters (s t : string) :
  eq_ignore_case s t = true ->
  parseLogLevel (Some s) = parseLogLevel (Some t).
Proof. apply parseLogLevel_congr. Qed.

Lemma parseLogLevel_same_letters_witness :
  parseLogLevel (Some "wArN") = parseLogLevel (Some "Warn").
Proof.
  apply (parseLogLevel_same_letters "wArN" "Warn"). reflexivity.
Defined.

(** X13: every level is parsed back from its enum name, and a string is
    parsed to a level other than [ERROR] exactly when it spells the name of
    that level: each letter in upper case, in lower case or, for [I], as a
    dotless i. *)
Theorem parseLogLevel_of_name (l : LogLevel) (s : string) :
  parseLogLevel (Some (LogLevel_name l)) = l
  /\ (if spells s (LogLevel_name l)
      then parseLogLevel (Some s) = l
      else parseLogLevel (Some s) <> l \/ l = ERROR).
Proof.
  split; [by destruct l|].
  destruct level_names_plain as (Htrace & Hdebug & Hinfo & Hwarn & Herror).
  rewrite <- upper_eqb_spells by (destruct l; assumption).
  clear Htrace Hdebug Hinfo Hwarn Herror.
  destruct s as [|c s].
  { destruct l; vm_compute;
      first [right; reflexivity | left; discriminate]. }
  unfold parseLogLevel. cbn [JS.truthy String.eqb negb].
  generalize (JS.toUpperCase (String c s)). intros u.
  destruct (String.eqb_spec u (LogLevel_name l)) as [->|Hne];
    [destruct l; reflexivity|].
  apply String.eqb_neq in Hne.
  destruct l; cbn [LogLevel_name] in Hne; rewrite ?Hne;
    first [right; reflexivity | left; repeat case (u =? _); discriminate].
Qed.

(** ** The resolved record *)

Lemma or_str_nonempty (a : option string) (d : string) :
  d <> "" -> JS.or_str a d <> "".
Proof.
  intros Hd. destruct a as [s|]; [|done]. simpl.
  by destruct (String.eqb_spec s "").
Qed.

Lemma or_str_first (a : option string) (d : string) :
  JS.or_str a "" <> "" -> JS.or_str a d = JS.or_str a "".
Proof.
  destruct a as [s|]; [|done]. simpl. by destruct (s =? "").
Qed.

(** X14: whatever the sources hold, the port of the record is present and
    non-empty, although the interface declares it optional, and the
    document-support string is never empty. *)
Theorem defaults_fill_in (e : EnvArgs.t) (env : gmap string string) :
  (exists p, Config.port (configuration e env) = Some p /\ p <> "")
  /\ Config.documentSupport (configuration e env) <> "".
Proof.
  split.
  - eexists. split; [reflexivity|]. by apply or_str_nonempty.
  - by apply or_str_nonempty.
Qed.

Lemma validate_exports (c c' : Config.t) :
  validate c = Exported c' ->
  c' = c /\ (Config.enableOAuth c = true
             \/ Config.clickupApiKey c <> "" /\ Config.clickupTeamId c <> "").
Proof.
  rewrite validate_cases.
  destruct (Config.enableOAuth c); [intros [= <-]; by auto|].
  destruct (String.eqb_spec (Config.clickupApiKey c) ""),
    (String.eqb_spec (Config.clickupTeamId c) ""); try done.
  intros [= <-]. by auto.
Qed.

Lemma validate_exports_iff (c : Config.t) :
  validate c = Exported c
  <-> Config.enableOAuth c = true
      \/ Config.clickupApiKey c <> "" /\ Config.clickupTeamId c <> "".
Proof.
  split; [by intros [_ H]%validate_exports|].
  rewrite validate_cases.
  destruct (Config.enableOAuth c); [done|].
  intros [[=]|[Hkey Hteam]].
  apply String.eqb_neq in Hkey, Hteam. by rewrite Hkey, Hteam.
Qed.

(** X15: an exported record is the merged record unchanged, and it has OAuth
    enabled or carries both a non-empty API key and a non-empty team
    identifier. *)
Theorem exported_record
    (args : list string) (env : gmap string string) (c : Config.t) :
  resolve args env = Exported c ->
  c = configuration (envArgs args) env
  /\ (Config.enableOAuth c = true
      \/ Config.clickupApiKey c <> "" /\ Config.clickupTeamId c <> "").
Proof.
  intros H. apply validate_exports in H as [-> H]. done.
Qed.

Lemma exported_record_witness :
  let c := Config.Build "k" "t" true "false" ERROR [] false false (Some "3231") in
  c = configuration (envArgs ["--env"; "CLICKUP_API_KEY=k"]) {["CLICKUP_TEAM_ID" := "t"]}
  /\ (Config.enableOAuth c = true
      \/ Config.clickupApiKey c <> "" /\ Config.clickupTeamId c <> "").
Proof.
  apply (exported_record ["--env"; "CLICKUP_API_KEY=k"] {["CLICKUP_TEAM_ID" := "t"]}).
  vm_compute. reflexivity.
Defined.

Lemma enableOAuth_true (e : EnvArgs.t) (env : gmap string string) :
  Config.enableOAuth (configuration e env) = true
  <-> EnvArgs.enableOAuth e = Some "true" \/ env !! "ENABLE_OAUTH" = Some "true".
Proof. apply flag_true. Qed.

(** X16: a source can only add to the other: if the environment alone, or the
    command line alone, passes the required-variable check, then so do the
    two together.  Arguments never make a valid environment fail, and
    environment variables never make valid arguments fail. *)
Theorem more_sources_keep_validity
    (args : list string) (env : gmap string string) :
  (exists c, resolve [] env = Exported c)
  \/ (exists c, resolve args ∅ = Exported c) ->
  exists c, resolve args env = Exported c.
Proof.
  intros H. exists (configuration (envArgs args) env).
  apply validate_exports_iff.
  destruct H as [[c H]|[c H]]; apply validate_exports in H as [_ H].
  - destruct H as [H|[Hkey Hteam]].
    + left. apply enableOAuth_true. apply enableOAuth_true in H as [[=]|H].
      by right.
    + right. revert Hkey Hteam. unfold configuration, envArgs.
      cbn [Config.clickupApiKey Config.clickupTeamId envArgs_loop
           EnvArgs.empty EnvArgs.clickupApiKey EnvArgs.clickupTeamId].
      rewrite !or_str_or. cbn [JS.or_str].
      intros Hkey Hteam. split; by apply or_str_nonempty.
  - destruct H as [H|[Hkey Hteam]].
    + left. apply enableOAuth_true. apply enableOAuth_true in H as [H|H].
      * by left.
      * by rewrite lookup_empty in H.
    + right. revert Hkey Hteam. unfold configuration.
      cbn [Config.clickupApiKey Config.clickupTeamId].
      rewrite !lookup_empty, !or_str_or. cbn [JS.or_str].
      intros Hkey Hteam.
      by rewrite (or_str_first _ _ Hkey), (or_str_first _ _ Hteam).
Qed.

Lemma more_sources_keep_validity_witness :
  exists c,
    resolve ["--env"; "CLICKUP_TEAM_ID="; "--env"; "LOG_LEVEL=debug"]
            (<["CLICKUP_API_KEY" := "k"]> {["CLICKUP_TEAM_ID" := "t"]})
    = Exported c.
Proof.
  apply (more_sources_keep_validity
           ["--env"; "CLICKUP_TEAM_ID="; "--env"; "LOG_LEVEL=debug"]
           (<["CLICKUP_API_KEY" := "k"]> {["CLICKUP_TEAM_ID" := "t"]})).
  left. eexists. vm_compute. reflexivity.
Defined.

(** X17: under the environment of the compose file, and whatever else the
    environment and the arguments hold, start-up never fails: OAuth is on,
    which no argument can undo, so the required-variable check is skipped;
    the port, the document-support string and the log level are the ones
    of the command line when it supplies non-empty ones, and otherwise
    ["8000"], ["true"] and [INFO]. *)
Theorem compose_environment_starts
    (args : list string) (env : gmap string string) :
  compose_environment ⊆ env ->
  let c := configuration (envArgs args) env in
  resolve args env = Exported c
  /\ Config.enableOAuth c = true
  /\ Config.port c = Some (JS.or_str (EnvArgs.port (envArgs args)) "8000")
  /\ Config.documentSupport c
     = JS.or_str (EnvArgs.documentSupport (envArgs args)) "true"
  /\ Config.logLevel c
     = if JS.truthy (EnvArgs.logLevel (envArgs args))
       then parseLogLevel (EnvArgs.logLevel (envArgs args))
       else INFO.
Proof.
  intros Hsub c.
  assert (env !! "ENABLE_OAUTH" = Some "true") as Hoauth
    by (by apply (lookup_weaken compose_environment)).
  assert (env !! "PORT" = Some "8000") as Hport
    by (by apply (lookup_weaken compose_environment)).
  assert (env !! "DOCUMENT_SUPPORT" = Some "true") as Hdoc
    by (by apply (lookup_weaken compose_environment)).
  assert (env !! "LOG_LEVEL" = Some "info") as Hlevel
    by (by apply (lookup_weaken compose_environment)).
  assert (Config.enableOAuth c = true) as Hc
    by (apply enableOAuth_true; by right).
  split; [apply validate_exports_iff; by left|].
  split; [done|].
  subst c. unfold configuration.
  cbn [Config.port Config.documentSupport Config.logLevel].
  rewrite Hport, Hdoc, Hlevel, !or_str_or.
  split; [done|]. split.
  - by destruct (EnvArgs.documentSupport (envArgs args)) as [[|? ?]|].
  - by destruct (EnvArgs.logLevel (envArgs args)) as [[|? ?]|].
Qed.

Lemma compose_environment_starts_witness :
  let c := configuration (envArgs ["--env"; "ENABLE_OAUTH=false"]) compose_environment in
  resolve ["--env"; "ENABLE_OAUTH=false"] compose_environment = Exported c
  /\ Config.enableOAuth c = true
  /\ Config.port c
     = Some (JS.or_str (EnvArgs.port (envArgs ["--env"; "ENABLE_OAUTH=false"])) "8000")
  /\ Config.documentSupport c
     = JS.or_str (EnvArgs.documentSupport (envArgs ["--env"; "ENABLE_OAUTH=false"])) "true"
  /\ Config.logLevel c
     = if JS.truthy (EnvArgs.logLevel (envArgs ["--env"; "ENABLE_OAUTH=false"]))
       then parseLogLevel (EnvArgs.logLevel (envArgs ["--env"; "ENABLE_OAUTH=false"]))
       else INFO.
Proof.
  apply (compose_environment_starts ["--env"; "ENABLE_OAUTH=false"] compose_environment).
  reflexivity.
Defined.
